(** * monkey-r3f-game: a shallow embedding of [src/App.tsx]

    The application keeps one [PlayerState] record and updates it from two
    joystick handlers ([handleMove], [handleStop]) and from the per-frame
    callback of the [Player] component.  Three further per-frame callbacks
    ([FollowCamera], [ChessboardPlane], [SkyBox]) move scene objects, and
    [createChessboardTexture] paints a 32x32 canvas.

    Numbers.  A JavaScript [number] is an IEEE-754 double.  This development
    idealises it as a real number: rounding, NaN and infinities are not
    modelled.  The sign of zero is kept where the source can observe it, in
    the joystick coordinates that reach [Math.atan2] (type [number] below);
    everywhere else a zero of either sign computes the same values and is the
    real 0.  Canvas coordinates and loop counters are small non-negative
    integers and are modelled as [nat].

    Library code.  [Math.*] and the few methods of three.js that the source
    calls ([Vector3.add], [Vector3.lerp], [Vector3.set], [Object3D.translateZ],
    the Euler-to-quaternion conversion behind the [rotation] prop) are not part
    of the repository; they are transcribed from their published definitions in
    the modules [Math] and [THREE] below. *)

From Stdlib Require Import Reals Lra Lia List String Arith Bool ZArith.
Import ListNotations.

Open Scope R_scope.

(** ** Numbers with a signed zero *)

(** A joystick coordinate: the double [r], where [Num 0] is +0, or -0. *)
Inductive number : Type :=
| Num (r : R)
| NegZero.

(** The real value of a coordinate. *)
Definition value (a : number) : R :=
  match a with
  | Num r => r
  | NegZero => 0
  end.

(** Unary minus: [-a].  The negation of +0 is -0 and the negation of -0
    is +0. *)
Definition negate (a : number) : number :=
  match a with
  | Num r => if Req_EM_T r 0 then NegZero else Num (- r)
  | NegZero => Num 0
  end.

(** ** The JavaScript [Math] object, on real numbers *)

Module Math.

Definition min (a b : R) : R := Rmin a b.

Definition sqrt (a : R) : R := R_sqrt.sqrt a.

Definition sin (a : R) : R := Rtrigo_def.sin a.

Definition cos (a : R) : R := Rtrigo_def.cos a.

(** [Math.atan2(y, x)]: the angle of the point [(x, y)], in [[-PI, PI]].
    Where an argument is a zero its sign decides, as ECMAScript lays down:
    with [x] negative or -0, a [y] of +0 gives PI and a [y] of -0 gives -PI;
    with [x] equal to +0, a zero [y] gives a zero. *)
Definition atan2 (y x : number) : R :=
  let yv := value y in
  let xv := value x in
  if Rlt_dec 0 xv then atan (yv / xv)
  else if Rlt_dec xv 0 then
    (if Rlt_dec 0 yv then atan (yv / xv) + PI
     else if Rlt_dec yv 0 then atan (yv / xv) - PI
     else match y with
          | Num _ => PI
          | NegZero => - PI
          end)
  else if Rlt_dec 0 yv then PI / 2
  else if Rlt_dec yv 0 then - (PI / 2)
  else match x, y with
       | NegZero, Num _ => PI
       | NegZero, NegZero => - PI
       | Num _, _ => 0
       end.

(** [Math.round(a)]: the integer nearest to [a], halves rounded up. *)
Definition round (a : R) : R := IZR (Int_part (a + 0.5)).

End Math.

(** ** The part of three.js used by the source *)

(** [Vector3Tuple] of three.js: the array type [[number, number, number]]. *)
Definition Vector3Tuple : Type := (R * R * R)%type.

Module THREE.

Record Vector3 : Type := mkVector3 { x : R; y : R; z : R }.

Record Quaternion : Type := mkQuaternion { qx : R; qy : R; qz : R; qw : R }.

(** [new THREE.Vector3(...t)] *)
Definition ofTuple (t : Vector3Tuple) : Vector3 :=
  let '(a, b, c) := t in mkVector3 a b c.

(** [v.clone()] *)
Definition clone (v : Vector3) : Vector3 := mkVector3 (x v) (y v) (z v).

(** [v.set(a, b, c)] *)
Definition set (_ : Vector3) (a b c : R) : Vector3 := mkVector3 a b c.

(** [v.add(w)] *)
Definition add (v w : Vector3) : Vector3 :=
  mkVector3 (x v + x w) (y v + y w) (z v + z w).

(** [v.multiplyScalar(s)] *)
Definition multiplyScalar (v : Vector3) (s : R) : Vector3 :=
  mkVector3 (x v * s) (y v * s) (z v * s).

(** [v.lerp(w, alpha)]: [this.x += (w.x - this.x) * alpha], and so on. *)
Definition lerp (v w : Vector3) (alpha : R) : Vector3 :=
  mkVector3 (x v + (x w - x v) * alpha)
            (y v + (y w - y v) * alpha)
            (z v + (z w - z v) * alpha).

(** [v.distanceTo(w)] *)
Definition distanceTo (v w : Vector3) : R :=
  Math.sqrt ((x v - x w) * (x v - x w)
             + (y v - y w) * (y v - y w)
             + (z v - z w) * (z v - z w)).

(** [q.setFromEuler(e)] for the default rotation order ['XYZ']. *)
Definition setFromEuler (ex ey ez : R) : Quaternion :=
  let c1 := Math.cos (ex / 2) in
  let c2 := Math.cos (ey / 2) in
  let c3 := Math.cos (ez / 2) in
  let s1 := Math.sin (ex / 2) in
  let s2 := Math.sin (ey / 2) in
  let s3 := Math.sin (ez / 2) in
  mkQuaternion (s1 * c2 * c3 + c1 * s2 * s3)
               (c1 * s2 * c3 - s1 * c2 * s3)
               (c1 * c2 * s3 + s1 * s2 * c3)
               (c1 * c2 * c3 - s1 * s2 * s3).

(** [v.applyQuaternion(q)]: [t = 2 * cross(q.xyz, v)], then
    [v + q.w * t + cross(q.xyz, t)]. *)
Definition applyQuaternion (v : Vector3) (q : Quaternion) : Vector3 :=
  let tx := 2 * (qy q * z v - qz q * y v) in
  let ty := 2 * (qz q * x v - qx q * z v) in
  let tz := 2 * (qx q * y v - qy q * x v) in
  mkVector3 (x v + qw q * tx + qy q * tz - qz q * ty)
            (y v + qw q * ty + qz q * tx - qx q * tz)
            (z v + qw q * tz + qx q * ty - qy q * tx).

(** A scene-graph node ([Group], [Mesh]): its local position and its
    orientation.  three.js keeps [rotation] (an Euler triple) and
    [quaternion] in step; the node stores the quaternion. *)
Record Object3D : Type := mkObject3D
  { position : Vector3; quaternion : Quaternion }.

Definition zAxis : Vector3 := mkVector3 0 0 1.

(** [o.translateOnAxis(axis, distance)] *)
Definition translateOnAxis (o : Object3D) (axis : Vector3) (distance : R)
  : Object3D :=
  let v1 := applyQuaternion axis (quaternion o) in
  mkObject3D (add (position o) (multiplyScalar v1 distance)) (quaternion o).

(** [o.translateZ(distance)] *)
Definition translateZ (o : Object3D) (distance : R) : Object3D :=
  translateOnAxis o zAxis distance.

(** [o.position.set(a, b, c)] *)
Definition setPosition (o : Object3D) (a b c : R) : Object3D :=
  mkObject3D (set (position o) a b c) (quaternion o).

(** [o.rotation.set(a, b, c)] *)
Definition setRotation (o : Object3D) (a b c : R) : Object3D :=
  mkObject3D (position o) (setFromEuler a b c).

End THREE.

(** ** [PlayerState] and the joystick event *)

Record PlayerState : Type := mkPlayerState
  { position : Vector3Tuple; rotation : R; speed : R; hp : R }.

(** [{...prev, position: p}] *)
Definition with_position (prev : PlayerState) (p : Vector3Tuple) : PlayerState :=
  mkPlayerState p (rotation prev) (speed prev) (hp prev).

(** [{...prev, rotation: r, speed: s}] *)
Definition with_rotation_speed (prev : PlayerState) (r s : R) : PlayerState :=
  mkPlayerState (position prev) r s (hp prev).

(** [{...prev, speed: s}] *)
Definition with_speed (prev : PlayerState) (s : R) : PlayerState :=
  mkPlayerState (position prev) (rotation prev) s (hp prev).

(** The two fields of [IJoystickUpdateEvent] that the source reads; each is
    [number | null]. *)
Module Joystick.
Record IJoystickUpdateEvent : Type :=
  mkEvent { x : option number; y : option number }.
End Joystick.

(** ** [App]: initial state and joystick handlers *)

(** The argument of [useState<PlayerState>] in [App]. *)
Definition initialPlayerState : PlayerState :=
  mkPlayerState (0, 11.5, 0) 0 0 100.

(** [handleMove]: the result is the state after the queued updater has run;
    when a coordinate is [null] no updater is queued. *)
Definition handleMove (event : Joystick.IJoystickUpdateEvent)
                      (prev : PlayerState) : PlayerState :=
  match Joystick.x event, Joystick.y event with
  | Some x, Some y =>
      let angle := Math.atan2 x (negate y) in
      let distance :=
        Math.min 1 (Math.sqrt (value x * value x + value y * value y) / 50) in
      let maxSpeed := 55 in
      let newSpeed := distance * maxSpeed in
      with_rotation_speed prev angle newSpeed
  | _, _ => prev
  end.

(** [handleStop] *)
Definition handleStop (prev : PlayerState) : PlayerState :=
  with_speed prev 0.

(** ** [LoadingScreen] *)

(** The updater passed to [setProgress] in the frame callback. *)
Definition LoadingScreen_useFrame (prev : R) : R := Math.min (prev + 0.5) 100.

(** The value of [progress] after [n] frames, from [useState(0)]. *)
Fixpoint LoadingScreen_progress (n : nat) : R :=
  match n with
  | O => 0
  | S k => LoadingScreen_useFrame (LoadingScreen_progress k)
  end.

(** The number shown in [Loading... {Math.round(progress)}%]. *)
Definition LoadingScreen_label (progress : R) : R := Math.round progress.

(** ** [FollowCamera] *)

Definition cameraOffset : THREE.Vector3 := THREE.mkVector3 0 45 0.

Definition lerpFactor : R := 0.03.

(** [desiredPosition] of the frame callback. *)
Definition desiredPosition (target : Vector3Tuple) : THREE.Vector3 :=
  let targetPos := THREE.ofTuple target in
  THREE.add (THREE.clone targetPos) cameraOffset.

(** The frame callback: the new [camera.position]. *)
Definition FollowCamera_useFrame (target : Vector3Tuple)
                                 (camera_position : THREE.Vector3)
  : THREE.Vector3 :=
  THREE.lerp camera_position (desiredPosition target) lerpFactor.

(** [n] frames with the [target] prop held fixed. *)
Fixpoint FollowCamera_frames (n : nat) (target : Vector3Tuple)
                             (camera_position : THREE.Vector3)
  : THREE.Vector3 :=
  match n with
  | O => camera_position
  | S k => FollowCamera_useFrame target (FollowCamera_frames k target camera_position)
  end.

(** ** [Player] *)

(** The props of [<group position={state.position}
    rotation={[0, state.rotation, 0]}>] applied to the node. *)
Definition Player_props (state : PlayerState) (g : THREE.Object3D)
  : THREE.Object3D :=
  let '(a, b, c) := position state in
  THREE.setRotation (THREE.setPosition g a b c) 0 (rotation state) 0.

(** A node as three.js constructs it: at the origin, identity orientation. *)
Definition newObject3D : THREE.Object3D :=
  THREE.mkObject3D (THREE.mkVector3 0 0 0) (THREE.mkQuaternion 0 0 0 1).

(** The group as mounted for [state]. *)
Definition Player_group (state : PlayerState) : THREE.Object3D :=
  Player_props state newObject3D.

(** The frame callback of [Player].  [state] is the prop of the last render,
    [groupRef] is [groupRef.current].  It returns the node after
    [translateZ] and the updater it passes to [setState]; with a null ref it
    returns before doing either. *)
Definition Player_useFrame (state : PlayerState)
                           (groupRef : option THREE.Object3D)
  : option THREE.Object3D * (PlayerState -> PlayerState) :=
  match groupRef with
  | None => (None, fun prev => prev)
  | Some g =>
      let g' := THREE.translateZ g (speed state) in
      let pos := THREE.position g' in
      (Some g',
       fun prev => with_position prev (THREE.x pos, THREE.y pos, THREE.z pos))
  end.

(** One frame of the mounted player: the group carries the props of [state],
    the callback runs, and the queued updater is applied to [state]. *)
Definition Player_frame (state : PlayerState) : PlayerState :=
  snd (Player_useFrame state (Some (Player_group state))) state.

(** [n] frames of the mounted player with no input event in between. *)
Fixpoint Player_frames (n : nat) (state : PlayerState) : PlayerState :=
  match n with
  | O => state
  | S k => Player_frame (Player_frames k state)
  end.

(** ** [ChessboardPlane]: the texture *)

(** A 2D canvas with its drawing context: the bitmap ([None] is a texel that
    was never painted) and the current [fillStyle]. *)
Record Canvas : Type := mkCanvas
  { width : nat;
    height : nat;
    fillStyle : string;
    texel : nat -> nat -> option string }.

(** [document.createElement('canvas')] followed by the assignments to
    [canvas.width] and [canvas.height]. *)
Definition createCanvas (w h : nat) : Canvas :=
  mkCanvas w h "#000000" (fun _ _ => None).

(** [context.fillStyle = s] *)
Definition setFillStyle (c : Canvas) (s : string) : Canvas :=
  mkCanvas (width c) (height c) s (texel c).

(** [context.fillRect(x, y, w, h)]: every texel of the rectangle that lies on
    the canvas takes the current fill style. *)
Definition fillRect (c : Canvas) (x y w h : nat) : Canvas :=
  mkCanvas (width c) (height c) (fillStyle c)
    (fun px py =>
       if (x <=? px) && (px <? x + w) && (y <=? py) && (py <? y + h)
          && (px <? width c) && (py <? height c)
       then Some (fillStyle c)
       else texel c px py).

Definition lightColor : string := "#0f6911".
Definition darkColor : string := "#005c02".

(** The body of the inner loop. *)
Definition paintTexel (y : nat) (c : Canvas) (x : nat) : Canvas :=
  let isLight := (x + y) mod 2 =? 0 in
  let c := setFillStyle c (if isLight then lightColor else darkColor) in
  fillRect c x y 1 1.

(** [for (let x = 0; x < size; x++) ...] *)
Definition paintRow (size : nat) (c : Canvas) (y : nat) : Canvas :=
  fold_left (paintTexel y) (seq 0 size) c.

(** [for (let y = 0; y < size; y++) ...] *)
Definition paintBoard (size : nat) (c : Canvas) : Canvas :=
  fold_left (paintRow size) (seq 0 size) c.

Inductive Wrapping : Type := ClampToEdgeWrapping | RepeatWrapping.
Inductive TextureFilter : Type := NearestFilter | LinearFilter | LinearMipmapLinearFilter.

Record Texture : Type := mkTexture
  { image : Canvas;
    needsUpdate : bool;
    repeat : R * R;
    wrapS : Wrapping;
    wrapT : Wrapping;
    magFilter : TextureFilter;
    minFilter : TextureFilter }.

Definition createChessboardTexture (_ : unit) : Texture :=
  let size := 32%nat in
  let canvas := createCanvas size size in
  let canvas := paintBoard size canvas in
  mkTexture canvas true (10, 10) RepeatWrapping RepeatWrapping
            NearestFilter NearestFilter.

(** ** [ChessboardPlane] and [SkyBox]: the frame callbacks *)

(** [t[0]] and [t[2]] of a [Vector3Tuple]. *)
Definition at0 (t : Vector3Tuple) : R := let '(a, _, _) := t in a.
Definition at2 (t : Vector3Tuple) : R := let '(_, _, c) := t in c.

Definition ChessboardPlane_useFrame (playerPosition : Vector3Tuple)
                                    (planeRef : option THREE.Object3D)
  : option THREE.Object3D :=
  match planeRef with
  | Some plane => Some (THREE.setPosition plane (at0 playerPosition) 0 (at2 playerPosition))
  | None => None
  end.

Definition SkyBox_useFrame (position : Vector3Tuple)
                           (skyboxRef : option THREE.Object3D)
  : option THREE.Object3D :=
  match skyboxRef with
  | Some skybox => Some (THREE.setPosition skybox (at0 position) 0 (at2 position))
  | None => None
  end.

(** ** [App]: the scene and its events *)

(** What the callbacks read and write: the React state of [App], the
    position of the camera, and the three refs. *)
Record Scene : Type := mkScene
  { playerState : PlayerState;
    camera : THREE.Vector3;
    planeRef : option THREE.Object3D;
    groupRef : option THREE.Object3D;
    skyboxRef : option THREE.Object3D }.

(** The scene once the children of [Suspense] are mounted: the camera prop
    of [Canvas], the plane mesh with its [rotation] prop, the player group
    with its props, the skybox mesh. *)
Definition App_mount : Scene :=
  mkScene initialPlayerState
          (THREE.mkVector3 0 615 0)
          (Some (THREE.setRotation newObject3D (- PI / 2) 0 0))
          (Some (Player_group initialPlayerState))
          (Some newObject3D).

(** A render of [App] with the state [st]: the props of the player group are
    applied again. *)
Definition App_render (st : PlayerState) (s : Scene) : Scene :=
  mkScene st (camera s) (planeRef s)
          (option_map (Player_props st) (groupRef s))
          (skyboxRef s).

(** One rendered frame.  The four callbacks run in the order in which the
    components appear in [App]; each reads the props of the last render:
    [<ChessboardPlane playerPosition={[0,0,0]} />],
    [<Player state={playerState} setState={setPlayerState} />],
    [<FollowCamera target={playerState.position} />],
    [<SkyBox position={playerState.position} />].
    The updater queued by [Player] then runs and [App] renders again. *)
Definition App_useFrame (s : Scene) : Scene :=
  let st := playerState s in
  let plane := ChessboardPlane_useFrame (0, 0, 0) (planeRef s) in
  let '(group, updater) := Player_useFrame st (groupRef s) in
  let cam := FollowCamera_useFrame (position st) (camera s) in
  let skybox := SkyBox_useFrame (position st) (skyboxRef s) in
  App_render (updater st) (mkScene st cam plane group skybox).

Inductive AppEvent : Type :=
| Move (event : Joystick.IJoystickUpdateEvent)   (* the joystick's [move] *)
| Stop                                           (* the joystick's [stop] *)
| Frame.                                         (* one rendered frame *)

Definition App_step (s : Scene) (e : AppEvent) : Scene :=
  match e with
  | Move event => App_render (handleMove event (playerState s)) s
  | Stop => App_render (handleStop (playerState s)) s
  | Frame => App_useFrame s
  end.

Definition App_run (events : list AppEvent) : Scene :=
  fold_left App_step events App_mount.

(** ** Auxiliary definitions for the statements and proofs *)

(** The colour the loop body chooses for the texel [(x, y)]. *)
Definition checker (x y : nat) : string :=
  if (x + y) mod 2 =? 0 then lightColor else darkColor.

(** The outer loop after its first [rows] iterations. *)
Definition paintRows (size rows : nat) (c : Canvas) : Canvas :=
  fold_left (paintRow size) (seq 0 rows) c.

(** Stick fully forward, then one frame. *)
Definition walk_forward : list AppEvent :=
  [Move (Joystick.mkEvent (Some (Num 0)) (Some (Num (-50)))); Frame].

(** The event is not a move whose [x] coordinate is -0. *)
Definition x_not_NegZero (e : AppEvent) : Prop :=
  match e with
  | Move event => Joystick.x event <> Some NegZero
  | _ => True
  end.

(** The number of rendered frames in a sequence of events. *)
Fixpoint frames_in (events : list AppEvent) : nat :=
  match events with
  | [] => O
  | Frame :: rest => S (frames_in rest)
  | _ :: rest => frames_in rest
  end.

(** How many texels of the rows [0 .. rows-1], columns [0 .. cols-1] of a
    canvas carry the colour [col]. *)
Definition count_in_row (c : Canvas) (col : string) (cols y : nat) : nat :=
  List.length
    (filter (fun x => match texel c x y with
                      | Some s => String.eqb s col
                      | None => false
                      end) (seq 0 cols)).

Definition count_texels (c : Canvas) (col : string) (cols rows : nat) : nat :=
  fold_right (fun y acc => (count_in_row c col cols y + acc)%nat) O (seq 0 rows).

Ltac split_compare :=
  repeat match goal with
    | |- context [?a =? ?b] => destruct (Nat.eqb_spec a b)
    | |- context [?a <=? ?b] => destruct (Nat.leb_spec a b)
    | |- context [?a <? ?b] => destruct (Nat.ltb_spec a b)
    end;
  cbn [andb]; try reflexivity; try lia.

(** * Properties *)

(** ** Helper lemmas: the forward axis of the player group *)

Lemma Rhalf0 : 0 / 2 = 0.
Proof. lra. Qed.

(** Rotating the local Z axis by the quaternion of the Euler triple
    [(0, r, 0)] gives the heading vector [(sin r, 0, cos r)]. *)
Lemma forward_axis (r : R) :
  THREE.applyQuaternion THREE.zAxis (THREE.setFromEuler 0 r 0)
  = THREE.mkVector3 (sin r) 0 (cos r).
Proof.
  unfold THREE.applyQuaternion, THREE.setFromEuler, THREE.zAxis,
    Math.sin, Math.cos; cbn [THREE.x THREE.y THREE.z THREE.qx THREE.qy THREE.qz THREE.qw].
  rewrite Rhalf0, sin_0, cos_0.
  assert (Hs : sin r = 2 * sin (r / 2) * cos (r / 2)).
  { rewrite <- sin_2a. f_equal. lra. }
  assert (Hc : cos r = 1 - 2 * sin (r / 2) * sin (r / 2)).
  { rewrite <- cos_2a_sin. f_equal. lra. }
  rewrite Hs, Hc. f_equal; ring.
Qed.

Lemma Player_props_group (st : PlayerState) (g : THREE.Object3D) :
  Player_props st g = Player_group st.
Proof.
  unfold Player_group, Player_props. destruct (position st) as [[a b] c].
  reflexivity.
Qed.

Lemma Player_group_position (st : PlayerState) :
  THREE.position (Player_group st) = THREE.ofTuple (position st).
Proof.
  unfold Player_group, Player_props. destruct (position st) as [[a b] c].
  reflexivity.
Qed.

Lemma Player_group_quaternion (st : PlayerState) :
  THREE.quaternion (Player_group st) = THREE.setFromEuler 0 (rotation st) 0.
Proof.
  unfold Player_group, Player_props. destruct (position st) as [[a b] c].
  reflexivity.
Qed.

(** One frame of the mounted player, in closed form. *)
Lemma Player_frame_eq (px py pz r s h : R) :
  Player_frame (mkPlayerState (px, py, pz) r s h)
  = mkPlayerState (px + s * sin r, py, pz + s * cos r) r s h.
Proof.
  unfold Player_frame, Player_useFrame, THREE.translateZ, THREE.translateOnAxis.
  cbn [snd]. rewrite Player_group_position, Player_group_quaternion.
  cbn [position rotation speed]. rewrite forward_axis.
  unfold with_position, THREE.add, THREE.multiplyScalar, THREE.ofTuple.
  cbn. f_equal. f_equal; [f_equal|]; ring.
Qed.

(** ** The scene: frames and the player group *)

Lemma App_useFrame_playerState (s : Scene) :
  playerState (App_useFrame s)
  = snd (Player_useFrame (playerState s) (groupRef s)) (playerState s).
Proof.
  unfold App_useFrame.
  destruct (Player_useFrame (playerState s) (groupRef s)) as [g u].
  reflexivity.
Qed.

Lemma App_run_snoc (events : list AppEvent) (e : AppEvent) :
  App_run (events ++ [e]) = App_step (App_run events) e.
Proof. unfold App_run. rewrite fold_left_app. reflexivity. Qed.

(** In every reachable scene the player group is mounted and carries the
    props of the current state. *)
Lemma App_run_groupRef (events : list AppEvent) :
  groupRef (App_run events) = Some (Player_group (playerState (App_run events))).
Proof.
  induction events as [|e events IH] using rev_ind; [reflexivity|].
  rewrite App_run_snoc. set (s := App_run events) in *.
  destruct e as [event| |]; cbn [App_step].
  - unfold App_render. cbn [groupRef playerState]. rewrite IH. cbn [option_map].
    rewrite Player_props_group. reflexivity.
  - unfold App_render. cbn [groupRef playerState]. rewrite IH. cbn [option_map].
    rewrite Player_props_group. reflexivity.
  - unfold App_useFrame. rewrite IH. unfold Player_useFrame, App_render.
    cbn [groupRef playerState option_map]. rewrite Player_props_group.
    reflexivity.
Qed.

(** A frame of the application advances the state by [Player_frame]. *)
Lemma App_run_Frame (events : list AppEvent) :
  playerState (App_run (events ++ [Frame]))
  = Player_frame (playerState (App_run events)).
Proof.
  rewrite App_run_snoc. cbn [App_step].
  rewrite App_useFrame_playerState, App_run_groupRef. reflexivity.
Qed.

(** ** Movement integrator *)

(** C2.  One frame of the mounted player maps position [P], rotation [R] and
    speed [S] to [P + S * (sin R, 0, cos R)] and leaves rotation, speed and
    hp as they were; from position (0,0,0), rotation 0 and speed 10 one frame
    gives (0,0,10); the y-coordinate is the same after any number of
    frames; and this is the step every frame of the running application
    applies to its player state. *)
Theorem Player_frame_translates_along_heading :
  (forall px py pz r s h : R,
      let st' := Player_frame (mkPlayerState (px, py, pz) r s h) in
      position st' = (px + s * sin r, py + s * 0, pz + s * cos r)
      /\ rotation st' = r /\ speed st' = s /\ hp st' = h)
  /\ (forall h : R,
         position (Player_frame (mkPlayerState (0, 0, 0) 0 10 h)) = (0, 0, 10))
  /\ (forall (n : nat) (st : PlayerState),
         snd (fst (position (Player_frames n st))) = snd (fst (position st)))
  /\ (forall events : list AppEvent,
         playerState (App_run (events ++ [Frame]))
         = Player_frame (playerState (App_run events))).
Proof.
  split; [|split; [|split; [|exact App_run_Frame]]].
  - intros px py pz r s h st'. subst st'. rewrite Player_frame_eq.
    cbn [position rotation speed hp]. repeat split.
    f_equal. f_equal. ring.
  - intros h. rewrite Player_frame_eq. cbn [position].
    rewrite sin_0, cos_0. f_equal; [f_equal|]; ring.
  - intros n st. induction n as [|n IH]; [reflexivity|].
    cbn [Player_frames]. rewrite <- IH.
    destruct (Player_frames n st) as [[[px py] pz] r s h].
    rewrite Player_frame_eq. reflexivity.
Qed.

(** C6.  With speed 0 the integrator is the identity on the whole state, so any
    number of frames leaves the position where it was, for every position and
    rotation. *)
Theorem Player_frames_speed_zero :
  forall (n : nat) (p : Vector3Tuple) (r h : R),
    Player_frames n (mkPlayerState p r 0 h) = mkPlayerState p r 0 h
    /\ position (Player_frames n (mkPlayerState p r 0 h)) = p.
Proof.
  intros n [[px py] pz] r h.
  assert (E : Player_frames n (mkPlayerState (px, py, pz) r 0 h)
              = mkPlayerState (px, py, pz) r 0 h).
  { induction n as [|n IH]; [reflexivity|].
    cbn [Player_frames]. rewrite IH, Player_frame_eq.
    rewrite !Rmult_0_l, !Rplus_0_r. reflexivity. }
  rewrite E. split; reflexivity.
Qed.

(** ** [Math.atan2] and the negated coordinate *)

Lemma value_negate (a : number) : value (negate a) = - value a.
Proof.
  destruct a as [r|]; cbn [negate value].
  - destruct (Req_EM_T r 0) as [E|N]; cbn [value]; lra.
  - lra.
Qed.

Lemma atan2_pos_x (y x : number) :
  0 < value x -> Math.atan2 y x = atan (value y / value x).
Proof.
  intros H. unfold Math.atan2.
  destruct (Rlt_dec 0 (value x)); [reflexivity|contradiction].
Qed.

Lemma sqrt_ratio (x y : R) :
  x <> 0 -> sqrt (1 + (y / x)²) = sqrt (x * x + y * y) / Rabs x.
Proof.
  intros Hx.
  assert (Hxx : 0 < x * x).
  { pose proof (Rsqr_pos_lt x Hx) as H. unfold Rsqr in H. exact H. }
  replace (1 + (y / x)²) with ((x * x + y * y) / (x * x))
    by (unfold Rsqr; field; exact Hx).
  rewrite sqrt_div_alt by exact Hxx.
  f_equal. change (x * x) with (Rsqr x). apply sqrt_Rsqr_abs.
Qed.

Lemma radius_pos (x y : R) : x <> 0 \/ y <> 0 -> 0 < sqrt (x * x + y * y).
Proof.
  intros H. apply sqrt_lt_R0.
  pose proof (Rle_0_sqr x) as Hx. pose proof (Rle_0_sqr y) as Hy.
  unfold Rsqr in *.
  destruct H as [H|H]; pose proof (Rsqr_pos_lt _ H) as P; unfold Rsqr in P; lra.
Qed.

(** Away from the origin [Math.atan2(y, x)] is the angle of the point
    [(x, y)]: its sine and cosine are the normalised coordinates. *)
Lemma atan2_sin_cos (y x : number) :
  value x <> 0 \/ value y <> 0 ->
  sin (Math.atan2 y x)
  = value y / sqrt (value x * value x + value y * value y)
  /\ cos (Math.atan2 y x)
     = value x / sqrt (value x * value x + value y * value y).
Proof.
  intros H. pose proof (radius_pos (value x) (value y) H) as Hr.
  unfold Math.atan2.
  remember (value x) as xv eqn:Exv. remember (value y) as yv eqn:Eyv.
  destruct (Rlt_dec 0 xv) as [Hx|Hx].
  - rewrite sin_atan, cos_atan, sqrt_ratio by lra.
    rewrite Rabs_right by lra. split; field; lra.
  - destruct (Rlt_dec xv 0) as [Hx'|Hx'].
    + assert (Habs : Rabs xv = - xv) by (apply Rabs_left; exact Hx').
      destruct (Rlt_dec 0 yv) as [Hy|Hy].
      * rewrite neg_sin, neg_cos, sin_atan, cos_atan, sqrt_ratio by lra.
        rewrite Habs. split; field; lra.
      * destruct (Rlt_dec yv 0) as [Hy'|Hy'].
        -- rewrite sin_minus, cos_minus, sin_PI, cos_PI.
           rewrite sin_atan, cos_atan, sqrt_ratio by lra.
           rewrite Habs. split; field; lra.
        -- assert (E0 : yv = 0) by lra.
           assert (Er : sqrt (xv * xv + yv * yv) = - xv).
           { rewrite E0. replace (xv * xv + 0 * 0) with (Rsqr xv)
               by (unfold Rsqr; ring).
             rewrite sqrt_Rsqr_abs. exact Habs. }
           rewrite Er, E0.
           destruct y as [r|].
           ++ rewrite sin_PI, cos_PI. split; field; lra.
           ++ rewrite sin_neg, cos_neg, sin_PI, cos_PI. split; field; lra.
    + assert (E0 : xv = 0) by lra.
      assert (Er : sqrt (xv * xv + yv * yv) = Rabs yv).
      { rewrite E0. replace (0 * 0 + yv * yv) with (Rsqr yv)
          by (unfold Rsqr; ring).
        apply sqrt_Rsqr_abs. }
      rewrite Er, E0.
      destruct (Rlt_dec 0 yv) as [Hy|Hy].
      * rewrite sin_PI2, cos_PI2, Rabs_right by lra. split; field; lra.
      * destruct (Rlt_dec yv 0) as [Hy'|Hy'].
        -- rewrite sin_neg, cos_neg, sin_PI2, cos_PI2, Rabs_left by lra.
           split; field; lra.
        -- exfalso. destruct H as [H|H]; lra.
Qed.

(** [Math.atan2] returns an angle in [[-PI, PI]], and -PI only for a first
    argument -0. *)
Lemma atan2_range (y x : number) :
  - PI <= Math.atan2 y x <= PI /\ (y <> NegZero -> - PI < Math.atan2 y x).
Proof.
  pose proof PI_RGT_0 as Hpi.
  pose proof (atan_bound (value y / value x)) as B.
  unfold Math.atan2.
  remember (value x) as xv eqn:Exv. remember (value y) as yv eqn:Eyv.
  destruct (Rlt_dec 0 xv) as [Hx|Hx]; [split; [|intros _]; lra|].
  destruct (Rlt_dec xv 0) as [Hx'|Hx'].
  - assert (Hinv : / xv < 0) by (apply Rinv_lt_0_compat; exact Hx').
    destruct (Rlt_dec 0 yv) as [Hy|Hy].
    + assert (yv / xv < 0) by (unfold Rdiv; nra).
      assert (atan (yv / xv) < 0).
      { rewrite <- atan_0. apply atan_increasing. lra. }
      split; [|intros _]; lra.
    + destruct (Rlt_dec yv 0) as [Hy'|Hy'].
      * assert (0 < yv / xv) by (unfold Rdiv; nra).
        assert (0 < atan (yv / xv)).
        { rewrite <- atan_0. apply atan_increasing. lra. }
        split; [|intros _]; lra.
      * destruct y as [r|].
        -- split; [|intros _]; lra.
        -- split; [lra|]. intros N. exfalso. apply N. reflexivity.
  - destruct (Rlt_dec 0 yv); [split; [|intros _]; lra|].
    destruct (Rlt_dec yv 0); [split; [|intros _]; lra|].
    destruct x as [rx|], y as [ry|]; (split; [lra|]); intros N;
      try lra; exfalso; apply N; reflexivity.
Qed.

Lemma handleMove_some (x y : number) (st : PlayerState) :
  handleMove (Joystick.mkEvent (Some x) (Some y)) st
  = with_rotation_speed st (Math.atan2 x (negate y))
      (Rmin 1 (sqrt (value x * value x + value y * value y) / 50) * 55).
Proof. reflexivity. Qed.

(** Away from the centre the published heading points along the stick:
    its sine and cosine are [x] and [-y] over the deflection. *)
Lemma handleMove_heading (x y : number) :
  value x <> 0 \/ value y <> 0 ->
  sin (Math.atan2 x (negate y))
  = value x / sqrt (value x * value x + value y * value y)
  /\ cos (Math.atan2 x (negate y))
     = - value y / sqrt (value x * value x + value y * value y).
Proof.
  intros H.
  assert (H' : value (negate y) <> 0 \/ value x <> 0).
  { rewrite value_negate. destruct H; [right|left]; lra. }
  destruct (atan2_sin_cos x (negate y) H') as [Hs Hc].
  rewrite value_negate in Hs, Hc.
  replace (- value y * - value y + value x * value x)
    with (value x * value x + value y * value y) in Hs, Hc by ring.
  split; assumption.
Qed.

(** ** Input adapter *)

Lemma sqrt_2500 : sqrt (0 * 0 + -50 * -50) = 50.
Proof. apply sqrt_lem_1; lra. Qed.

Lemma negate_plus_zero : negate (Num 0) = NegZero.
Proof.
  cbn [negate]. destruct (Req_EM_T 0 0) as [_|N]; [reflexivity|].
  exfalso. apply N. reflexivity.
Qed.

(** [Math.atan2] of two zeros: the signs decide. *)
Lemma atan2_zeros (y x : number) :
  value x = 0 -> value y = 0 ->
  Math.atan2 y x
  = match x, y with
    | NegZero, Num _ => PI
    | NegZero, NegZero => - PI
    | Num _, _ => 0
    end.
Proof.
  intros Hx Hy. unfold Math.atan2. rewrite Hx, Hy.
  destruct (Rlt_dec 0 0) as [H|_]; [lra|reflexivity].
Qed.

(** Full forward deflection of the stick: heading 0 at full speed. *)
Lemma handleMove_forward (st : PlayerState) :
  handleMove (Joystick.mkEvent (Some (Num 0)) (Some (Num (-50)))) st
  = with_rotation_speed st 0 55.
Proof.
  rewrite handleMove_some.
  rewrite atan2_pos_x by (rewrite value_negate; cbn [value]; lra).
  rewrite value_negate. cbn [value].
  replace (0 / - -50) with 0 by lra. rewrite atan_0, sqrt_2500.
  replace (50 / 50) with 1 by lra. rewrite Rmin_left by lra.
  f_equal. lra.
Qed.

Lemma sqrt_le_50 (x y : R) : x ^ 2 + y ^ 2 <= 50 ^ 2 -> sqrt (x ^ 2 + y ^ 2) <= 50.
Proof.
  intros H.
  assert (E : sqrt (50 ^ 2) = 50).
  { replace (50 ^ 2) with (50 * 50) by ring. apply sqrt_square. lra. }
  rewrite <- E. apply sqrt_le_1_alt. exact H.
Qed.

Lemma handleMove_speed_eq (x y : number) (st : PlayerState) :
  speed (handleMove (Joystick.mkEvent (Some x) (Some y)) st)
  = 55 * Rmin 1 (sqrt (value x ^ 2 + value y ^ 2) / 50).
Proof.
  rewrite handleMove_some. unfold with_rotation_speed. cbn [speed].
  replace (value x * value x + value y * value y)
    with (value x ^ 2 + value y ^ 2) by ring.
  ring.
Qed.

(** C3.  A move event with coordinates [(x, y)] publishes the rotation
    [atan2(x, -y)] and the speed [55 * min(1, sqrt(x^2 + y^2) / 50)]; when
    [x^2 + y^2 <= 50^2] that speed is [55 * sqrt(x^2 + y^2) / 50] and lies in
    [[0, 55]]; the event [(0, -50)] publishes rotation 0 and speed 55.
    What [atan2(x, -y)] is: an angle in [[-PI, PI]] whose sine and cosine are
    [x] and [-y] over the deflection when the stick is off centre; at the
    centre the negation of [y] decides, so that the event (+0, +0) publishes
    PI, (+0, -0) and (-0, -0) publish 0, and (-0, +0) publishes -PI. *)
Theorem handleMove_publishes :
  forall (x y : number) (st : PlayerState),
    let st' := handleMove (Joystick.mkEvent (Some x) (Some y)) st in
    rotation st' = Math.atan2 x (negate y)
    /\ speed st' = 55 * Rmin 1 (sqrt (value x ^ 2 + value y ^ 2) / 50)
    /\ (value x ^ 2 + value y ^ 2 <= 50 ^ 2 ->
        0 <= speed st' <= 55
        /\ speed st' = 55 * sqrt (value x ^ 2 + value y ^ 2) / 50)
    /\ - PI <= rotation st' <= PI
    /\ (value x <> 0 \/ value y <> 0 ->
        sin (rotation st') = value x / sqrt (value x ^ 2 + value y ^ 2)
        /\ cos (rotation st') = - value y / sqrt (value x ^ 2 + value y ^ 2))
    /\ rotation (handleMove (Joystick.mkEvent (Some (Num 0)) (Some (Num 0))) st) = PI
    /\ rotation (handleMove (Joystick.mkEvent (Some (Num 0)) (Some NegZero)) st) = 0
    /\ rotation (handleMove (Joystick.mkEvent (Some NegZero) (Some (Num 0))) st) = - PI
    /\ rotation (handleMove (Joystick.mkEvent (Some NegZero) (Some NegZero)) st) = 0
    /\ rotation (handleMove (Joystick.mkEvent (Some (Num 0)) (Some (Num (-50)))) st) = 0
    /\ speed (handleMove (Joystick.mkEvent (Some (Num 0)) (Some (Num (-50)))) st) = 55.
Proof.
  intros x y st st'. subst st'.
  split; [reflexivity|]. split; [apply handleMove_speed_eq|].
  split.
  { intros H. rewrite handleMove_speed_eq.
    pose proof (sqrt_pos (value x ^ 2 + value y ^ 2)) as H0.
    pose proof (sqrt_le_50 (value x) (value y) H) as H1.
    rewrite Rmin_right by lra. lra. }
  split.
  { rewrite handleMove_some. unfold with_rotation_speed. cbn [rotation].
    apply atan2_range. }
  split.
  { intros H. rewrite handleMove_some. unfold with_rotation_speed.
    cbn [rotation].
    replace (value x ^ 2 + value y ^ 2)
      with (value x * value x + value y * value y) by ring.
    apply handleMove_heading. exact H. }
  split.
  { rewrite handleMove_some. cbn [with_rotation_speed rotation].
    rewrite negate_plus_zero. apply (atan2_zeros (Num 0) NegZero); reflexivity. }
  split.
  { rewrite handleMove_some. cbn [with_rotation_speed rotation negate].
    apply (atan2_zeros (Num 0) (Num 0)); reflexivity. }
  split.
  { rewrite handleMove_some. cbn [with_rotation_speed rotation].
    rewrite negate_plus_zero. apply (atan2_zeros NegZero NegZero); reflexivity. }
  split.
  { rewrite handleMove_some. cbn [with_rotation_speed rotation negate].
    apply (atan2_zeros NegZero (Num 0)); reflexivity. }
  rewrite handleMove_forward. split; reflexivity.
Qed.

Lemma handleMove_publishes_witness :
  (value (Num 30) ^ 2 + value (Num 40) ^ 2 <= 50 ^ 2
   /\ 0 <= speed (handleMove (Joystick.mkEvent (Some (Num 30)) (Some (Num 40)))
                             initialPlayerState) <= 55)
  /\ ((value (Num 30) <> 0 \/ value (Num 40) <> 0)
      /\ sin (rotation (handleMove (Joystick.mkEvent (Some (Num 30)) (Some (Num 40)))
                                   initialPlayerState))
         = value (Num 30) / sqrt (value (Num 30) ^ 2 + value (Num 40) ^ 2)).
Proof.
  assert (H1 : value (Num 30) ^ 2 + value (Num 40) ^ 2 <= 50 ^ 2)
    by (cbn [value]; lra).
  assert (H2 : value (Num 30) <> 0 \/ value (Num 40) <> 0)
    by (left; cbn [value]; lra).
  pose proof (handleMove_publishes (Num 30) (Num 40) initialPlayerState) as T.
  cbv zeta in T. destruct T as (_ & _ & T1 & _ & T2 & _).
  split.
  - split; [exact H1|]. exact (proj1 (T1 H1)).
  - split; [exact H2|]. exact (proj1 (T2 H2)).
Defined.

(** C5.  The stop event sets the speed to 0 and keeps the rotation, and every
    further stop event changes nothing: after one stop, any number of stops
    gives the same state, and the rotation after any number of stops is the
    rotation before them. *)
Theorem handleStop_speed_zero_rotation_kept :
  forall (st : PlayerState) (n : nat),
    speed (handleStop st) = 0
    /\ rotation (handleStop st) = rotation st
    /\ position (handleStop st) = position st
    /\ Nat.iter n handleStop (handleStop st) = handleStop st
    /\ rotation (Nat.iter n handleStop st) = rotation st.
Proof.
  intros st n. repeat split.
  - induction n as [|n IH]; [reflexivity|]. cbn [Nat.iter nat_rect]. 
    change (handleStop (Nat.iter n handleStop (handleStop st)) = handleStop st).
    rewrite IH. reflexivity.
  - induction n as [|n IH]; [reflexivity|].
    change (rotation (handleStop (Nat.iter n handleStop st)) = rotation st).
    exact IH.
Qed.

(** A render with the state the scene already has changes nothing. *)
Lemma App_render_same (events : list AppEvent) :
  App_render (playerState (App_run events)) (App_run events) = App_run events.
Proof.
  pose proof (App_run_groupRef events) as G.
  destruct (App_run events) as [st cam plane group sky].
  cbn [groupRef playerState] in G. subst group.
  unfold App_render. cbn [option_map playerState camera planeRef groupRef skyboxRef].
  rewrite Player_props_group. reflexivity.
Qed.

(** C8.  A move event whose [x] or [y] is null returns the player state it was
    given, all four fields included, and the running application is in the
    same scene after the event as before it; the handler is a total function,
    so there is no error outcome. *)
Theorem handleMove_null_ignored :
  forall (event : Joystick.IJoystickUpdateEvent) (st : PlayerState),
    Joystick.x event = None \/ Joystick.y event = None ->
    handleMove event st = st
    /\ (forall events : list AppEvent,
           App_run (events ++ [Move event]) = App_run events).
Proof.
  intros [ex ey] st H.
  assert (E : forall prev, handleMove (Joystick.mkEvent ex ey) prev = prev).
  { intros prev. unfold handleMove. cbn [Joystick.x Joystick.y] in *.
    destruct H as [-> | ->]; [reflexivity|]. destruct ex; reflexivity. }
  split; [apply E|].
  intros events. rewrite App_run_snoc. cbn [App_step]. rewrite E.
  apply App_render_same.
Qed.

Lemma handleMove_null_ignored_witness :
  handleMove (Joystick.mkEvent None (Some (Num 12))) initialPlayerState
  = initialPlayerState
  /\ handleMove (Joystick.mkEvent (Some (Num 7)) None) initialPlayerState
     = initialPlayerState.
Proof.
  split.
  - apply (handleMove_null_ignored (Joystick.mkEvent None (Some (Num 12)))).
    left. reflexivity.
  - apply (handleMove_null_ignored (Joystick.mkEvent (Some (Num 7)) None)).
    right. reflexivity.
Defined.

(** ** The hp field *)

Lemma handleMove_hp (event : Joystick.IJoystickUpdateEvent) (st : PlayerState) :
  hp (handleMove event st) = hp st.
Proof.
  unfold handleMove.
  destruct (Joystick.x event), (Joystick.y event); reflexivity.
Qed.

Lemma Player_useFrame_hp (state : PlayerState) (ref : option THREE.Object3D)
                         (prev : PlayerState) :
  hp (snd (Player_useFrame state ref) prev) = hp prev.
Proof. destruct ref; reflexivity. Qed.

Lemma App_step_hp (s : Scene) (e : AppEvent) :
  hp (playerState (App_step s e)) = hp (playerState s).
Proof.
  destruct e as [event| |]; cbn [App_step].
  - apply handleMove_hp.
  - reflexivity.
  - rewrite App_useFrame_playerState. apply Player_useFrame_hp.
Qed.

(** C10.  No operation writes hp: the move handler, the stop handler and the
    updater queued by the player's frame callback each return a state with
    the hp they were given, so after any sequence of events from the mounted
    application hp is still 100. *)
Theorem hp_never_written :
  (forall (event : Joystick.IJoystickUpdateEvent) (st : PlayerState),
      hp (handleMove event st) = hp st)
  /\ (forall st : PlayerState, hp (handleStop st) = hp st)
  /\ (forall (state : PlayerState) (ref : option THREE.Object3D) (prev : PlayerState),
         hp (snd (Player_useFrame state ref) prev) = hp prev)
  /\ (forall st : PlayerState, hp (Player_frame st) = hp st)
  /\ hp initialPlayerState = 100
  /\ (forall events : list AppEvent, hp (playerState (App_run events)) = 100).
Proof.
  split; [exact handleMove_hp|]. split; [reflexivity|].
  split; [exact Player_useFrame_hp|]. split; [reflexivity|].
  split; [reflexivity|].
  intros events. induction events as [|e events IH] using rev_ind.
  - reflexivity.
  - rewrite App_run_snoc, App_step_hp. exact IH.
Qed.

(** ** Loading progress *)

Lemma Rmin_cases (a b : R) : (a <= b /\ Rmin a b = a) \/ (b < a /\ Rmin a b = b).
Proof.
  unfold Rmin. destruct (Rle_dec a b); [left|right]; split; lra.
Qed.

Lemma LoadingScreen_progress_closed (n : nat) :
  LoadingScreen_progress n = Rmin (INR n * 0.5) 100.
Proof.
  induction n as [|n IH].
  - cbn [LoadingScreen_progress INR]. rewrite Rmin_left; lra.
  - cbn [LoadingScreen_progress]. unfold LoadingScreen_useFrame, Math.min.
    rewrite IH, S_INR.
    destruct (Rmin_cases (INR n * 0.5) 100) as [[H1 E1]|[H1 E1]];
      rewrite E1;
      destruct (Rmin_cases ((INR n + 1) * 0.5) 100) as [[H2 E2]|[H2 E2]];
      rewrite E2;
      destruct (Rmin_cases (INR n * 0.5 + 0.5) 100) as [[H3 E3]|[H3 E3]];
      try (rewrite E3; lra);
      destruct (Rmin_cases (100 + 0.5) 100) as [[H4 E4]|[H4 E4]];
      try (rewrite E4; lra); lra.
Qed.

(** C9.  The displayed percentage starts at 0 and each frame replaces it by
    [min(progress + 0.5, 100)]; it never decreases, it stays in [[0, 100]],
    and it is a function of the number of frames alone,
    [min(n / 2, 100)]: no loading state enters it. *)
Theorem LoadingScreen_progress_fabricated :
  forall n : nat,
    LoadingScreen_progress 0 = 0
    /\ LoadingScreen_progress (S n) = Rmin (LoadingScreen_progress n + 0.5) 100
    /\ LoadingScreen_progress n <= LoadingScreen_progress (S n)
    /\ 0 <= LoadingScreen_progress n <= 100
    /\ LoadingScreen_progress n = Rmin (INR n / 2) 100.
Proof.
  intros n. split; [reflexivity|]. split; [reflexivity|].
  assert (B : 0 <= LoadingScreen_progress n <= 100).
  { rewrite LoadingScreen_progress_closed. pose proof (pos_INR n).
    destruct (Rmin_cases (INR n * 0.5) 100) as [[H1 E1]|[H1 E1]]; rewrite E1; lra. }
  split; [|split; [exact B|]].
  - cbn [LoadingScreen_progress]. unfold LoadingScreen_useFrame, Math.min.
    destruct (Rmin_cases (LoadingScreen_progress n + 0.5) 100) as [[H1 E1]|[H1 E1]];
      rewrite E1; lra.
  - rewrite LoadingScreen_progress_closed. f_equal. lra.
Qed.

(** ** Camera follower *)

Lemma desiredPosition_eq (tx ty tz : R) :
  desiredPosition (tx, ty, tz) = THREE.mkVector3 (tx + 0) (ty + 45) (tz + 0).
Proof. reflexivity. Qed.

(** One coordinate of the lerp step, iterated. *)
Lemma lerp_coordinate (d c p : R) :
  (d - (d - c) * p) + (d - (d - (d - c) * p)) * lerpFactor
  = d - (d - c) * (0.97 * p).
Proof.
  unfold lerpFactor. set (q := (d - c) * p).
  replace ((d - c) * (0.97 * p)) with (0.97 * q).
  - lra.
  - unfold q. generalize 0.97. intros k. ring.
Qed.

Lemma FollowCamera_frames_closed (n : nat) (target : Vector3Tuple)
                                 (start : THREE.Vector3) :
  let d := desiredPosition target in
  FollowCamera_frames n target start
  = THREE.mkVector3 (THREE.x d - (THREE.x d - THREE.x start) * 0.97 ^ n)
                    (THREE.y d - (THREE.y d - THREE.y start) * 0.97 ^ n)
                    (THREE.z d - (THREE.z d - THREE.z start) * 0.97 ^ n).
Proof.
  intros d. induction n as [|n IH].
  - cbn [FollowCamera_frames pow]. destruct start as [sx sy sz].
    cbn [THREE.x THREE.y THREE.z]. f_equal; ring.
  - cbn [FollowCamera_frames]. rewrite IH.
    unfold FollowCamera_useFrame, THREE.lerp. fold d.
    cbn [THREE.x THREE.y THREE.z pow].
    rewrite !lerp_coordinate. reflexivity.
Qed.

Lemma FollowCamera_frames_distance (n : nat) (target : Vector3Tuple)
                                   (start : THREE.Vector3) :
  THREE.distanceTo (FollowCamera_frames n target start) (desiredPosition target)
  = 0.97 ^ n * THREE.distanceTo start (desiredPosition target).
Proof.
  rewrite FollowCamera_frames_closed.
  set (d := desiredPosition target). set (p := 0.97 ^ n).
  assert (Hp : 0 <= p) by (apply pow_le; lra).
  unfold THREE.distanceTo, Math.sqrt. cbn [THREE.x THREE.y THREE.z].
  match goal with
  | |- sqrt ?a = p * sqrt ?b => replace a with ((p * p) * b) by ring
  end.
  rewrite sqrt_mult_alt by nra. rewrite sqrt_square by exact Hp. reflexivity.
Qed.

Lemma pow_097_100 : 0.97 ^ 100 < 0.05.
Proof.
  assert (H : 0.97 ^ 100 * IZR 100 ^ 100 = IZR 97 ^ 100).
  { rewrite <- Rpow_mult_distr. f_equal. lra. }
  rewrite !pow_IZR in H.
  assert (P : 0 < IZR (100 ^ Z.of_nat 100)) by (apply IZR_lt; reflexivity).
  apply Rmult_lt_reg_r with (1 := P). rewrite H.
  apply Rmult_lt_reg_r with (IZR 100); [lra|].
  replace (0.05 * IZR (100 ^ Z.of_nat 100) * IZR 100)
    with (IZR 5 * IZR (100 ^ Z.of_nat 100)) by lra.
  rewrite <- !mult_IZR. apply IZR_lt. reflexivity.
Qed.

(** C4.  The desired position is the target plus (0, 45, 0) and a frame is
    the lerp step with factor 0.03 toward it; with the target fixed, after
    [n] frames the camera is at [desired - (desired - start) * 0.97^n], for
    any start, and its distance to the desired position is [0.97^n] times
    the initial distance; after 100 frames that fraction is [0.97^100], which
    is less than 5%, so the remaining distance is within 5% of the initial
    one. *)
Theorem FollowCamera_converges :
  forall (tx ty tz : R) (start : THREE.Vector3) (n : nat),
    let target := (tx, ty, tz) in
    let d := desiredPosition target in
    d = THREE.mkVector3 tx (ty + 45) tz
    /\ FollowCamera_useFrame target start = THREE.lerp start d 0.03
    /\ FollowCamera_frames n target start
       = THREE.mkVector3 (THREE.x d - (THREE.x d - THREE.x start) * 0.97 ^ n)
                         (THREE.y d - (THREE.y d - THREE.y start) * 0.97 ^ n)
                         (THREE.z d - (THREE.z d - THREE.z start) * 0.97 ^ n)
    /\ THREE.distanceTo (FollowCamera_frames n target start) d
       = 0.97 ^ n * THREE.distanceTo start d
    /\ THREE.distanceTo (FollowCamera_frames 100 target start) d
       = 0.97 ^ 100 * THREE.distanceTo start d
    /\ 0.97 ^ 100 < 0.05
    /\ THREE.distanceTo (FollowCamera_frames 100 target start) d
       <= 0.05 * THREE.distanceTo start d.
Proof.
  intros tx ty tz start n target d.
  split. { subst d target. rewrite desiredPosition_eq. f_equal; ring. }
  split. { reflexivity. }
  split. { apply FollowCamera_frames_closed. }
  split. { apply FollowCamera_frames_distance. }
  split. { apply FollowCamera_frames_distance. }
  pose proof pow_097_100 as Hp.
  split; [exact Hp|].
  unfold d. rewrite FollowCamera_frames_distance.
  assert (0 <= THREE.distanceTo start (desiredPosition target))
    by apply sqrt_pos.
  nra.
Qed.

(** ** World re-centering *)

Lemma App_useFrame_planeRef (s : Scene) :
  planeRef (App_useFrame s) = ChessboardPlane_useFrame (0, 0, 0) (planeRef s).
Proof.
  unfold App_useFrame.
  destruct (Player_useFrame (playerState s) (groupRef s)) as [g u].
  reflexivity.
Qed.

Lemma App_useFrame_skyboxRef (s : Scene) :
  skyboxRef (App_useFrame s)
  = SkyBox_useFrame (position (playerState s)) (skyboxRef s).
Proof.
  unfold App_useFrame.
  destruct (Player_useFrame (playerState s) (groupRef s)) as [g u].
  reflexivity.
Qed.

(** The ground plane never leaves the origin. *)
Lemma App_run_plane_position (events : list AppEvent) :
  option_map THREE.position (planeRef (App_run events))
  = Some (THREE.mkVector3 0 0 0).
Proof.
  induction events as [|e events IH] using rev_ind; [reflexivity|].
  rewrite App_run_snoc. set (s := App_run events) in *.
  destruct e as [event| |]; cbn [App_step]; try exact IH.
  rewrite App_useFrame_planeRef.
  destruct (planeRef s) as [plane|]; [reflexivity|discriminate IH].
Qed.

Lemma walk_forward_state :
  playerState (App_run walk_forward) = mkPlayerState (0, 11.5, 55) 0 55 100.
Proof.
  change walk_forward
    with ([Move (Joystick.mkEvent (Some (Num 0)) (Some (Num (-50))))] ++ [Frame]).
  rewrite App_run_Frame.
  unfold App_run. cbn [fold_left App_step App_render playerState App_mount].
  rewrite handleMove_forward.
  unfold with_rotation_speed, initialPlayerState. cbn [position hp].
  rewrite Player_frame_eq, sin_0, cos_0.
  f_equal. f_equal; [f_equal|]; lra.
Qed.

(** C1, evaluated on the code.  After the player has walked to
    (0, 11.5, 55), the next frame leaves the ground plane at (0, 0, 0), not
    at (0, 0, 55); the skybox, wired to [playerState.position], is set to
    (0, 0, 55) by the same frame.  The plane is at the origin after every
    sequence of events. *)
Theorem ChessboardPlane_stays_at_origin :
  position (playerState (App_run walk_forward)) = (0, 11.5, 55)
  /\ option_map THREE.position (planeRef (App_run (walk_forward ++ [Frame])))
     = Some (THREE.mkVector3 0 0 0)
  /\ option_map THREE.position (planeRef (App_run (walk_forward ++ [Frame])))
     <> Some (THREE.mkVector3 0 0 55)
  /\ option_map THREE.position (skyboxRef (App_run (walk_forward ++ [Frame])))
     = Some (THREE.mkVector3 0 0 55)
  /\ (forall events : list AppEvent,
         option_map THREE.position (planeRef (App_run events))
         = Some (THREE.mkVector3 0 0 0)).
Proof.
  split. { rewrite walk_forward_state. reflexivity. }
  split. { apply App_run_plane_position. }
  split.
  { rewrite App_run_plane_position. intros E. injection E as E. lra. }
  split; [|exact App_run_plane_position].
  rewrite App_run_snoc. cbn [App_step]. rewrite App_useFrame_skyboxRef.
  rewrite walk_forward_state. cbn [position].
  assert (E : exists sky, skyboxRef (App_run walk_forward) = Some sky).
  { unfold walk_forward, App_run.
    cbn [fold_left App_step App_render skyboxRef].
    rewrite App_useFrame_skyboxRef. cbn [App_render skyboxRef App_mount SkyBox_useFrame].
    eexists. reflexivity. }
  destruct E as [sky E]. rewrite E. reflexivity.
Qed.

(** ** Texture synthesis *)

Lemma paintTexel_texel (y : nat) (c : Canvas) (x px py : nat) :
  texel (paintTexel y c x) px py
  = if (px =? x) && (py =? y) && (px <? width c) && (py <? height c)
    then Some (checker x y) else texel c px py.
Proof.
  unfold paintTexel, fillRect, setFillStyle, checker.
  cbn [texel width height fillStyle].
  destruct ((x + y) mod 2 =? 0); split_compare.
Qed.

Lemma paintTexel_size (y : nat) (c : Canvas) (x : nat) :
  width (paintTexel y c x) = width c /\ height (paintTexel y c x) = height c.
Proof. split; reflexivity. Qed.

Lemma paintRow_S (size : nat) (c : Canvas) (y : nat) :
  paintRow (S size) c y = paintTexel y (paintRow size c y) size.
Proof.
  unfold paintRow. rewrite seq_S, fold_left_app. reflexivity.
Qed.

Lemma paintRow_size (size : nat) (c : Canvas) (y : nat) :
  width (paintRow size c y) = width c /\ height (paintRow size c y) = height c.
Proof.
  induction size as [|size IH]; [split; reflexivity|].
  rewrite paintRow_S. exact IH.
Qed.

Lemma paintRow_texel (size : nat) (c : Canvas) (y px py : nat) :
  texel (paintRow size c y) px py
  = if (py =? y) && (px <? size) && (px <? width c) && (py <? height c)
    then Some (checker px py) else texel c px py.
Proof.
  induction size as [|size IH].
  - cbn [paintRow seq fold_left]. split_compare.
  - rewrite paintRow_S, paintTexel_texel, IH.
    destruct (paintRow_size size c y) as [-> ->].
    split_compare; subst; reflexivity.
Qed.

Lemma paintRows_S (size rows : nat) (c : Canvas) :
  paintRows size (S rows) c = paintRow size (paintRows size rows c) rows.
Proof.
  unfold paintRows. rewrite seq_S, fold_left_app. reflexivity.
Qed.

Lemma paintRows_size (size rows : nat) (c : Canvas) :
  width (paintRows size rows c) = width c
  /\ height (paintRows size rows c) = height c.
Proof.
  induction rows as [|rows IH]; [split; reflexivity|].
  rewrite paintRows_S.
  destruct (paintRow_size size (paintRows size rows c) rows) as [-> ->].
  exact IH.
Qed.

Lemma paintRows_texel (size rows : nat) (c : Canvas) (px py : nat) :
  texel (paintRows size rows c) px py
  = if (py <? rows) && (px <? size) && (px <? width c) && (py <? height c)
    then Some (checker px py) else texel c px py.
Proof.
  induction rows as [|rows IH].
  - cbn [paintRows seq fold_left]. split_compare.
  - rewrite paintRows_S, paintRow_texel, IH.
    destruct (paintRows_size size rows c) as [-> ->].
    split_compare.
Qed.

Lemma mod2_even (n : nat) : (n mod 2 =? 0) = Nat.even n.
Proof.
  destruct (Nat.even n) eqn:E.
  - apply Nat.even_spec in E. destruct E as [k ->].
    rewrite Nat.mul_comm, Nat.Div0.mod_mul. reflexivity.
  - apply Nat.eqb_neq. intros H.
    assert (Nat.even n = true); [|congruence].
    apply Nat.even_spec. exists (n / 2)%nat.
    pose proof (Nat.div_mod_eq n 2). lia.
Qed.

Lemma checker_succ (x y : nat) : checker (S x) y <> checker x y.
Proof.
  unfold checker. rewrite !mod2_even.
  change (S x + y)%nat with (S (x + y)). rewrite Nat.even_succ, <- Nat.negb_even.
  destruct (Nat.even (x + y)); discriminate.
Qed.

Lemma checker_wrap (x y : nat) :
  (x < 32)%nat -> checker ((x + 1) mod 32) y <> checker x y.
Proof.
  intros H. destruct (Nat.eq_dec x 31) as [->|N].
  - unfold checker. rewrite !mod2_even.
    change ((31 + 1) mod 32)%nat with 0%nat.
    change (31 + y)%nat with (S (30 + y)).
    rewrite Nat.even_succ, <- Nat.negb_even.
    replace (Nat.even (30 + y)) with (Nat.even (0 + y)).
    + destruct (Nat.even (0 + y)); discriminate.
    + rewrite !Nat.even_add. reflexivity.
  - rewrite Nat.mod_small by lia. rewrite Nat.add_1_r. apply checker_succ.
Qed.

Lemma createChessboardTexture_texel (px py : nat) :
  texel (image (createChessboardTexture tt)) px py
  = if (py <? 32) && (px <? 32) then Some (checker px py) else None.
Proof.
  unfold createChessboardTexture. cbn [image].
  change (paintBoard 32 (createCanvas 32 32))
    with (paintRows 32 32 (createCanvas 32 32)).
  rewrite paintRows_texel. cbn [createCanvas width height texel].
  split_compare.
Qed.

(** C7.  The raster is 32 texels wide and 32 high, and nothing is painted
    outside it; texel [(x, y)] has the light colour when [x + y] is even and
    the dark colour otherwise; every invocation returns the same texture; the
    two colours are distinct and both occur; and a texel differs from its
    right-hand neighbour, also across the seam of the repeated pattern. *)
Theorem createChessboardTexture_checkerboard :
  let raster := image (createChessboardTexture tt) in
  width raster = 32%nat /\ height raster = 32%nat
  /\ (forall x y : nat, (x < 32)%nat -> (y < 32)%nat ->
        texel raster x y
        = Some (if Nat.even (x + y) then lightColor else darkColor))
  /\ (forall x y : nat, (32 <= x)%nat \/ (32 <= y)%nat -> texel raster x y = None)
  /\ (forall u v : unit, createChessboardTexture u = createChessboardTexture v)
  /\ lightColor <> darkColor
  /\ texel raster 0 0 = Some lightColor
  /\ texel raster 1 0 = Some darkColor
  /\ (forall x y : nat, (S x < 32)%nat -> (y < 32)%nat ->
        texel raster x y <> texel raster (S x) y)
  /\ (forall x y : nat, (x < 32)%nat -> (y < 32)%nat ->
        texel raster x y <> texel raster ((x + 1) mod 32) y).
Proof.
  intros raster. subst raster.
  split. { apply (paintRows_size 32 32 (createCanvas 32 32)). }
  split. { apply (paintRows_size 32 32 (createCanvas 32 32)). }
  split.
  { intros x y Hx Hy. rewrite createChessboardTexture_texel.
    apply Nat.ltb_lt in Hx, Hy. rewrite Hx, Hy. cbn [andb].
    unfold checker. rewrite mod2_even. reflexivity. }
  split.
  { intros x y H. rewrite createChessboardTexture_texel.
    split_compare. }
  split. { intros [] []. reflexivity. }
  split. { discriminate. }
  split. { rewrite createChessboardTexture_texel. reflexivity. }
  split. { rewrite createChessboardTexture_texel. reflexivity. }
  split.
  - intros x y Hx Hy. rewrite !createChessboardTexture_texel.
    assert (Hx' : (x < 32)%nat) by lia.
    apply Nat.ltb_lt in Hx, Hy, Hx'. rewrite Hx, Hy, Hx'. cbn [andb].
    intros E. injection E as E. symmetry in E. revert E. apply checker_succ.
  - intros x y Hx Hy. rewrite !createChessboardTexture_texel.
    assert (Hm : ((x + 1) mod 32 < 32)%nat) by (apply Nat.mod_upper_bound; lia).
    pose proof (checker_wrap x y Hx) as W.
    apply Nat.ltb_lt in Hx, Hy, Hm. rewrite Hx, Hy, Hm. cbn [andb].
    intros E. injection E as E. symmetry in E. exact (W E).
Qed.

Lemma createChessboardTexture_checkerboard_witness :
  texel (image (createChessboardTexture tt)) 3 4 = Some darkColor
  /\ texel (image (createChessboardTexture tt)) 3 4
     <> texel (image (createChessboardTexture tt)) 4 4
  /\ texel (image (createChessboardTexture tt)) 31 4
     <> texel (image (createChessboardTexture tt)) 0 4
  /\ texel (image (createChessboardTexture tt)) 32 4 = None.
Proof.
  pose proof createChessboardTexture_checkerboard as T. cbv zeta in T.
  destruct T as (_ & _ & Tcol & Tout & _ & _ & _ & _ & Tadj & Twrap).
  split; [|split; [|split]].
  - apply (Tcol 3 4)%nat; lia.
  - apply (Tadj 3 4)%nat; lia.
  - apply (Twrap 31 4)%nat; lia.
  - apply (Tout 32 4)%nat. left. lia.
Defined.

(** * Further properties of the code *)

(** ** The displacement that follows a move event *)

Lemma radius_zero : sqrt (0 * 0 + 0 * 0) = 0.
Proof. replace (0 * 0 + 0 * 0) with 0 by ring. apply sqrt_0. Qed.

Lemma radius_le_50 (x y : R) :
  x * x + y * y <= 50 * 50 -> sqrt (x * x + y * y) <= 50.
Proof.
  intros H. rewrite <- (sqrt_square 50) by lra. apply sqrt_le_1_alt. exact H.
Qed.

Lemma radius_ge_50 (x y : R) :
  50 * 50 <= x * x + y * y -> 50 <= sqrt (x * x + y * y).
Proof.
  intros H. rewrite <- (sqrt_square 50) at 1 by lra. apply sqrt_le_1_alt. exact H.
Qed.

(** Inside the stick's circle of radius 50, a move event followed by one frame
    displaces the player by 1.1 times the stick vector: by [1.1 * x] along
    the world X axis and by [- 1.1 * y] along the world Z axis, whatever the
    previous rotation and speed were and whatever the sign of a zero
    coordinate; the height is kept. *)
Theorem move_then_frame_follows_stick :
  forall (x y : number) (px py pz r s h : R),
    value x * value x + value y * value y <= 50 * 50 ->
    position (Player_frame (handleMove (Joystick.mkEvent (Some x) (Some y))
                                       (mkPlayerState (px, py, pz) r s h)))
    = (px + 1.1 * value x, py, pz - 1.1 * value y).
Proof.
  intros x y px py pz r s h Hin.
  rewrite handleMove_some. unfold with_rotation_speed. cbn [position hp].
  rewrite Player_frame_eq. cbn [position].
  pose proof (radius_le_50 (value x) (value y) Hin) as Hle.
  pose proof (sqrt_pos (value x * value x + value y * value y)) as Hge.
  rewrite Rmin_right by lra.
  replace 1.1 with (11 / 10) by lra.
  destruct (Req_dec (value x) 0) as [Ex|Ex];
    [destruct (Req_dec (value y) 0) as [Ey|Ey]|].
  - rewrite Ex, Ey, radius_zero. f_equal; [f_equal|]; lra.
  - destruct (handleMove_heading x y (or_intror Ey)) as [-> ->].
    pose proof (radius_pos (value x) (value y) (or_intror Ey)) as Hr.
    f_equal; [f_equal|]; field; lra.
  - destruct (handleMove_heading x y (or_introl Ex)) as [-> ->].
    pose proof (radius_pos (value x) (value y) (or_introl Ex)) as Hr.
    f_equal; [f_equal|]; field; lra.
Qed.

Lemma move_then_frame_follows_stick_witness :
  value (Num 30) * value (Num 30) + value (Num (-40)) * value (Num (-40)) <= 50 * 50
  /\ position (Player_frame
                 (handleMove (Joystick.mkEvent (Some (Num 30)) (Some (Num (-40))))
                             initialPlayerState))
     = (0 + 1.1 * 30, 11.5, 0 - 1.1 * -40).
Proof.
  assert (H : value (Num 30) * value (Num 30)
              + value (Num (-40)) * value (Num (-40)) <= 50 * 50)
    by (cbn [value]; lra).
  split; [exact H|].
  exact (move_then_frame_follows_stick (Num 30) (Num (-40)) 0 11.5 0 0 0 100 H).
Defined.

(** On and beyond the circle of radius 50 (the corners of the stick's square
    range) the speed saturates at 55: the next frame displaces the player by
    55 times the unit vector of the stick direction, a step of length 55. *)
Theorem move_beyond_range_saturates :
  forall (x y : number) (px py pz r s h : R),
    50 * 50 <= value x * value x + value y * value y ->
    let st' := handleMove (Joystick.mkEvent (Some x) (Some y))
                          (mkPlayerState (px, py, pz) r s h) in
    let d := sqrt (value x * value x + value y * value y) in
    speed st' = 55
    /\ position (Player_frame st')
       = (px + 55 * (value x / d), py, pz - 55 * (value y / d))
    /\ THREE.distanceTo (THREE.ofTuple (position (Player_frame st')))
                        (THREE.mkVector3 px py pz) = 55.
Proof.
  intros x y px py pz r s h Hout st' d. subst st'.
  rewrite handleMove_some. unfold with_rotation_speed. cbn [position hp speed].
  pose proof (radius_ge_50 (value x) (value y) Hout) as Hge. fold d in Hge.
  assert (Hne : value x <> 0 \/ value y <> 0).
  { destruct (Req_dec (value x) 0) as [Ex|Ex]; [|left; exact Ex].
    right. intros Ey. unfold d in Hge. rewrite Ex, Ey, radius_zero in Hge. lra. }
  fold d. rewrite Rmin_left by (apply Rmult_le_reg_r with 50; [lra|]; lra).
  split; [lra|].
  rewrite Player_frame_eq. cbn [position].
  destruct (handleMove_heading x y Hne) as [-> ->]. fold d.
  split.
  - f_equal; [f_equal|]; field; lra.
  - unfold THREE.distanceTo, THREE.ofTuple, Math.sqrt.
    cbn [THREE.x THREE.y THREE.z].
    match goal with |- sqrt ?a = _ =>
      replace a
        with ((55 * 55) * ((value x * value x + value y * value y) / (d * d)))
        by (field; lra)
    end.
    assert (Hd : d * d = value x * value x + value y * value y).
    { unfold d. apply sqrt_sqrt. nra. }
    rewrite Hd.
    replace ((value x * value x + value y * value y)
             / (value x * value x + value y * value y)) with 1 by (field; nra).
    rewrite Rmult_1_r. apply sqrt_square. lra.
Qed.

Lemma move_beyond_range_saturates_witness :
  50 * 50 <= value (Num 50) * value (Num 50) + value (Num 50) * value (Num 50)
  /\ speed (handleMove (Joystick.mkEvent (Some (Num 50)) (Some (Num 50)))
                       initialPlayerState) = 55.
Proof.
  assert (H : 50 * 50 <= value (Num 50) * value (Num 50)
                         + value (Num 50) * value (Num 50))
    by (cbn [value]; lra).
  split; [exact H|].
  exact (proj1 (move_beyond_range_saturates (Num 50) (Num 50) 0 11.5 0 0 0 100 H)).
Defined.

Lemma negate_nonzero (r : R) : r <> 0 -> negate (Num r) = Num (- r).
Proof.
  intros H. cbn [negate]. destruct (Req_EM_T r 0); [contradiction|reflexivity].
Qed.

(** The four cardinal stick directions, at any deflection: up (negative [y])
    gives heading 0, right gives PI/2, down gives PI, left gives -PI/2. *)
Theorem handleMove_cardinal_headings :
  forall (a : R) (st : PlayerState),
    0 < a ->
    rotation (handleMove (Joystick.mkEvent (Some (Num 0)) (Some (Num (- a)))) st) = 0
    /\ rotation (handleMove (Joystick.mkEvent (Some (Num a)) (Some (Num 0))) st)
       = PI / 2
    /\ rotation (handleMove (Joystick.mkEvent (Some (Num 0)) (Some (Num a))) st) = PI
    /\ rotation (handleMove (Joystick.mkEvent (Some (Num (- a))) (Some (Num 0))) st)
       = - (PI / 2).
Proof.
  intros a st Ha. rewrite !handleMove_some. unfold with_rotation_speed.
  cbn [rotation].
  rewrite negate_plus_zero, !negate_nonzero by lra.
  unfold Math.atan2. cbn [value]. repeat split.
  - destruct (Rlt_dec 0 (- - a)); [|lra].
    replace (0 / - - a) with 0 by (field; lra). apply atan_0.
  - destruct (Rlt_dec 0 0); [lra|].
    destruct (Rlt_dec 0 a); [reflexivity|lra].
  - destruct (Rlt_dec 0 (- a)); [lra|].
    destruct (Rlt_dec (- a) 0); [|lra].
    destruct (Rlt_dec 0 0); [lra|]. reflexivity.
  - destruct (Rlt_dec 0 0); [lra|].
    destruct (Rlt_dec 0 (- a)); [lra|].
    destruct (Rlt_dec (- a) 0); [reflexivity|lra].
Qed.

Lemma handleMove_cardinal_headings_witness :
  0 < 25
  /\ rotation (handleMove (Joystick.mkEvent (Some (Num 0)) (Some (Num 25)))
                          initialPlayerState) = PI.
Proof.
  split; [lra|].
  apply (handleMove_cardinal_headings 25 initialPlayerState). lra.
Defined.

(** ** Invariants of the player state over every run *)

Lemma Player_frame_fields (st : PlayerState) :
  rotation (Player_frame st) = rotation st
  /\ speed (Player_frame st) = speed st
  /\ snd (fst (position (Player_frame st))) = snd (fst (position st)).
Proof.
  destruct st as [[[px py] pz] r s h]. rewrite Player_frame_eq.
  repeat split.
Qed.

Lemma handleMove_speed_bounds (event : Joystick.IJoystickUpdateEvent)
                              (st : PlayerState) :
  0 <= speed st <= 55 -> 0 <= speed (handleMove event st) <= 55.
Proof.
  intros H. destruct event as [[x|] [y|]]; try exact H.
  rewrite handleMove_some. unfold with_rotation_speed. cbn [speed].
  pose proof (sqrt_pos (value x * value x + value y * value y)) as H0.
  destruct (Rmin_cases 1 (sqrt (value x * value x + value y * value y) / 50))
    as [[H1 E]|[H1 E]]; rewrite E; lra.
Qed.

Lemma handleMove_rotation_range (event : Joystick.IJoystickUpdateEvent)
                                (st : PlayerState) :
  - PI <= rotation st <= PI -> - PI <= rotation (handleMove event st) <= PI.
Proof.
  intros H. destruct event as [[x|] [y|]]; try exact H.
  rewrite handleMove_some. unfold with_rotation_speed. cbn [rotation].
  apply atan2_range.
Qed.

Lemma handleMove_rotation_strict (event : Joystick.IJoystickUpdateEvent)
                                 (st : PlayerState) :
  Joystick.x event <> Some NegZero ->
  - PI < rotation st -> - PI < rotation (handleMove event st).
Proof.
  intros Hx H. destruct event as [[x|] [y|]]; try exact H.
  rewrite handleMove_some. unfold with_rotation_speed. cbn [rotation].
  apply atan2_range. intros E. apply Hx. cbn [Joystick.x]. rewrite E. reflexivity.
Qed.

Lemma handleMove_position (event : Joystick.IJoystickUpdateEvent)
                          (st : PlayerState) :
  position (handleMove event st) = position st.
Proof. destruct event as [[x|] [y|]]; reflexivity. Qed.

Lemma App_run_bounds (events : list AppEvent) :
  - PI <= rotation (playerState (App_run events)) <= PI
  /\ 0 <= speed (playerState (App_run events)) <= 55
  /\ snd (fst (position (playerState (App_run events)))) = 11.5.
Proof.
  induction events as [|e events IH] using rev_ind.
  - cbn. pose proof PI_RGT_0. repeat split; lra.
  - destruct IH as (Hr & Hs & Hy).
    destruct e as [event| |].
    + rewrite App_run_snoc. cbn [App_step App_render playerState].
      split; [apply handleMove_rotation_range; exact Hr|].
      split; [apply handleMove_speed_bounds; exact Hs|].
      rewrite handleMove_position. exact Hy.
    + rewrite App_run_snoc. cbn [App_step App_render playerState].
      unfold handleStop, with_speed. cbn [rotation speed position].
      split; [exact Hr|]. split; [lra|exact Hy].
    + rewrite App_run_Frame.
      destruct (Player_frame_fields (playerState (App_run events))) as (-> & -> & ->).
      split; [exact Hr|]. split; [exact Hs|exact Hy].
Qed.

Lemma App_run_rotation_strict (events : list AppEvent) :
  Forall x_not_NegZero events ->
  - PI < rotation (playerState (App_run events)).
Proof.
  induction events as [|e events IH] using rev_ind; intros HF.
  - cbn. pose proof PI_RGT_0. lra.
  - apply Forall_app in HF. destruct HF as [HF He].
    specialize (IH HF). inversion He as [|e' l' Hx _]; subst.
    destruct e as [event| |].
    + rewrite App_run_snoc. cbn [App_step App_render playerState].
      apply handleMove_rotation_strict; [exact Hx|exact IH].
    + rewrite App_run_snoc. exact IH.
    + rewrite App_run_Frame.
      destruct (Player_frame_fields (playerState (App_run events))) as (-> & _ & _).
      exact IH.
Qed.

(** Whatever the joystick and the renderer do, the player state stays within
    fixed bounds: the heading is in [[-PI, PI]], and in (-PI, PI] when no move
    event carried an [x] coordinate of -0 (the one input for which
    [Math.atan2] returns -PI); the speed is in [[0, 55]]; and the height of
    the player is the initial 11.5. *)
Theorem playerState_invariants :
  forall events : list AppEvent,
    let st := playerState (App_run events) in
    - PI <= rotation st <= PI
    /\ (Forall x_not_NegZero events -> - PI < rotation st <= PI)
    /\ 0 <= speed st <= 55
    /\ snd (fst (position st)) = 11.5.
Proof.
  intros events. cbv zeta.
  destruct (App_run_bounds events) as (Hr & Hs & Hy).
  split; [exact Hr|]. split; [|split; [exact Hs|exact Hy]].
  intros HF. split; [apply App_run_rotation_strict; exact HF|apply Hr].
Qed.

Lemma playerState_invariants_witness :
  Forall x_not_NegZero walk_forward
  /\ - PI < rotation (playerState (App_run walk_forward)) <= PI.
Proof.
  assert (HF : Forall x_not_NegZero walk_forward).
  { unfold walk_forward. repeat constructor. cbn. discriminate. }
  split; [exact HF|].
  exact (proj1 (proj2 (playerState_invariants walk_forward)) HF).
Defined.

(** ** The movement integrator over several frames *)

(** Without input in between, [n] frames move the player along a straight
    line: [n] times the one-frame displacement, with rotation, speed and hp
    as before. *)
Theorem Player_frames_straight_line :
  forall (n : nat) (px py pz r s h : R),
    Player_frames n (mkPlayerState (px, py, pz) r s h)
    = mkPlayerState (px + INR n * (s * sin r), py, pz + INR n * (s * cos r)) r s h.
Proof.
  intros n px py pz r s h. induction n as [|n IH].
  - cbn [Player_frames INR]. f_equal. f_equal; [f_equal|]; ring.
  - cbn [Player_frames]. rewrite IH, Player_frame_eq, S_INR.
    f_equal. f_equal; [f_equal|]; ring.
Qed.

Lemma heading_unit (r : R) : sin r * sin r + cos r * cos r = 1.
Proof. pose proof (sin2_cos2 r) as H. unfold Rsqr in H. exact H. Qed.

(** In the running application a frame moves the player by exactly its
    current speed, and therefore by at most 55 units. *)
Theorem frame_step_length :
  forall events : list AppEvent,
    let before := playerState (App_run events) in
    let after := playerState (App_run (events ++ [Frame])) in
    THREE.distanceTo (THREE.ofTuple (position after))
                     (THREE.ofTuple (position before)) = speed before
    /\ THREE.distanceTo (THREE.ofTuple (position after))
                        (THREE.ofTuple (position before)) <= 55.
Proof.
  intros events. cbv zeta.
  destruct (App_run_bounds events) as (_ & Hs & _).
  rewrite App_run_Frame.
  destruct (playerState (App_run events)) as [[[px py] pz] r s h].
  cbn [speed] in Hs. rewrite Player_frame_eq. cbn [position speed].
  assert (E : THREE.distanceTo
                (THREE.ofTuple (px + s * sin r, py, pz + s * cos r))
                (THREE.ofTuple (px, py, pz)) = s).
  { unfold THREE.distanceTo, THREE.ofTuple, Math.sqrt.
    cbn [THREE.x THREE.y THREE.z].
    match goal with |- sqrt ?a = _ =>
      replace a with ((s * s) * (sin r * sin r + cos r * cos r)) by ring
    end.
    rewrite heading_unit, Rmult_1_r. apply sqrt_square. lra. }
  rewrite E. split; [reflexivity|lra].
Qed.

Lemma App_run_app (l1 l2 : list AppEvent) :
  App_run (l1 ++ l2) = fold_left App_step l2 (App_run l1).
Proof. unfold App_run. apply fold_left_app. Qed.

Lemma repeat_snoc (n : nat) : List.repeat Frame (S n) = List.repeat Frame n ++ [Frame].
Proof.
  induction n as [|n IH]; [reflexivity|].
  cbn [List.repeat app] in *. rewrite <- IH. reflexivity.
Qed.

(** After a stop event the player stands still: any number of frames leaves
    the whole player state as the stop event left it, so the position is the
    one the player had when the stick was released. *)
Theorem stop_then_frames_stand_still :
  forall (events : list AppEvent) (n : nat),
    playerState (App_run (events ++ Stop :: List.repeat Frame n))
    = handleStop (playerState (App_run events))
    /\ position (playerState (App_run (events ++ Stop :: List.repeat Frame n)))
       = position (playerState (App_run events)).
Proof.
  intros events n.
  assert (E : playerState (App_run (events ++ Stop :: List.repeat Frame n))
              = handleStop (playerState (App_run events))).
  { induction n as [|n IH].
    - cbn [List.repeat]. rewrite App_run_snoc. reflexivity.
    - rewrite repeat_snoc.
      change (Stop :: List.repeat Frame n ++ [Frame])
        with ((Stop :: List.repeat Frame n) ++ [Frame]).
      rewrite app_assoc, App_run_Frame, IH.
      destruct (playerState (App_run events)) as [[[px py] pz] r s h].
      unfold handleStop, with_speed. cbn [position rotation speed hp].
      rewrite Player_frame_eq. f_equal. f_equal; [f_equal|]; ring. }
  split; [exact E|]. rewrite E. reflexivity.
Qed.

(** ** The skybox and the camera in the running application *)

Lemma App_useFrame_camera (s : Scene) :
  camera (App_useFrame s)
  = FollowCamera_useFrame (position (playerState s)) (camera s).
Proof.
  unfold App_useFrame.
  destruct (Player_useFrame (playerState s) (groupRef s)) as [g u].
  reflexivity.
Qed.

Lemma App_run_skybox (events : list AppEvent) :
  exists sky : THREE.Object3D,
    skyboxRef (App_run events) = Some sky
    /\ THREE.y (THREE.position sky) = 0.
Proof.
  induction events as [|e events IH] using rev_ind.
  - eexists. split; reflexivity.
  - destruct IH as (sky & E & Hy). rewrite App_run_snoc.
    destruct e as [event| |]; cbn [App_step App_render skyboxRef].
    + exists sky. split; assumption.
    + exists sky. split; assumption.
    + rewrite App_useFrame_skyboxRef, E. cbn [SkyBox_useFrame].
      eexists. split; reflexivity.
Qed.

(** The skybox is mounted in every reachable scene and lies in the plane
    [y = 0]; a frame centres it on the horizontal position the player had when
    the frame began, so after the frame it trails the player by that frame's
    displacement; joystick events do not move it. *)
Theorem SkyBox_follows_player :
  forall events : list AppEvent,
    let st := playerState (App_run events) in
    option_map THREE.position (skyboxRef (App_run (events ++ [Frame])))
    = Some (THREE.mkVector3 (at0 (position st)) 0 (at2 (position st)))
    /\ position (playerState (App_run (events ++ [Frame])))
       = (at0 (position st) + speed st * sin (rotation st),
          11.5,
          at2 (position st) + speed st * cos (rotation st))
    /\ (exists sky : THREE.Object3D,
           skyboxRef (App_run events) = Some sky
           /\ THREE.y (THREE.position sky) = 0)
    /\ (forall event : Joystick.IJoystickUpdateEvent,
           skyboxRef (App_run (events ++ [Move event])) = skyboxRef (App_run events))
    /\ skyboxRef (App_run (events ++ [Stop])) = skyboxRef (App_run events).
Proof.
  intros events. cbv zeta.
  split; [|split; [|split; [apply App_run_skybox|split]]].
  - rewrite App_run_snoc. cbn [App_step]. rewrite App_useFrame_skyboxRef.
    destruct (App_run_skybox events) as (sky & -> & _). reflexivity.
  - destruct (App_run_bounds events) as (_ & _ & Hy).
    rewrite App_run_Frame.
    destruct (playerState (App_run events)) as [[[px py] pz] r s h].
    cbn [position fst snd] in Hy. subst py.
    rewrite Player_frame_eq. reflexivity.
  - intros event. rewrite App_run_snoc. reflexivity.
  - rewrite App_run_snoc. reflexivity.
Qed.

Lemma frames_in_snoc (events : list AppEvent) (e : AppEvent) :
  frames_in (events ++ [e])
  = (frames_in events + match e with Frame => 1 | _ => 0 end)%nat.
Proof.
  induction events as [|a events IH].
  - destruct e; reflexivity.
  - destruct a; cbn [app frames_in]; rewrite IH; reflexivity.
Qed.

(** The height of the camera depends on the number of rendered frames alone:
    from 615 it decays towards 56.5 (the player's height plus the offset 45)
    by the factor 0.97 per frame, whatever the joystick does, and it stays
    above 56.5. *)
Theorem camera_height :
  forall events : list AppEvent,
    THREE.y (camera (App_run events)) = 56.5 + 558.5 * 0.97 ^ frames_in events
    /\ 56.5 < THREE.y (camera (App_run events)) <= 615.
Proof.
  intros events.
  assert (E : THREE.y (camera (App_run events))
              = 56.5 + 558.5 * 0.97 ^ frames_in events).
  { induction events as [|e events IH] using rev_ind.
    - cbn. lra.
    - rewrite App_run_snoc, frames_in_snoc.
      destruct e as [event| |]; cbn [App_step App_render camera].
      + rewrite Nat.add_0_r. exact IH.
      + rewrite Nat.add_0_r. exact IH.
      + rewrite App_useFrame_camera.
        destruct (App_run_bounds events) as (_ & _ & Hy).
        destruct (position (playerState (App_run events))) as [[px py] pz].
        cbn [fst snd] in Hy. subst py.
        unfold FollowCamera_useFrame, THREE.lerp, desiredPosition, lerpFactor,
          THREE.add, THREE.clone, THREE.ofTuple, cameraOffset.
        cbn [THREE.x THREE.y THREE.z]. rewrite IH.
        rewrite Nat.add_1_r. cbn [pow].
        set (p := 0.97 ^ frames_in events). lra. }
  split; [exact E|]. rewrite E.
  assert (0 < 0.97 ^ frames_in events) by (apply pow_lt; lra).
  assert (0.97 ^ frames_in events <= 1).
  { rewrite <- (pow1 (frames_in events)). apply pow_incr. lra. }
  lra.
Qed.

(** ** The loading bar *)

(** The bar grows by half a percent per frame, is below 100 during the first
    199 frames, reaches 100 at frame 200 and stays there. *)
Theorem LoadingScreen_saturates :
  forall n : nat,
    ((n < 200)%nat ->
     LoadingScreen_progress n = INR n / 2 /\ LoadingScreen_progress n < 100)
    /\ ((200 <= n)%nat -> LoadingScreen_progress n = 100).
Proof.
  intros n. rewrite LoadingScreen_progress_closed.
  assert (E200 : INR 200 = 200) by (rewrite INR_IZR_INZ; reflexivity).
  split; intros H.
  - apply lt_INR in H. rewrite E200 in H.
    rewrite Rmin_left by lra. split; lra.
  - apply le_INR in H. rewrite E200 in H.
    rewrite Rmin_right by lra. reflexivity.
Qed.

Lemma LoadingScreen_saturates_witness :
  ((199 < 200)%nat /\ LoadingScreen_progress 199 < 100)
  /\ ((200 <= 200)%nat /\ LoadingScreen_progress 200 = 100).
Proof.
  split.
  - split; [lia|]. apply (proj1 (LoadingScreen_saturates 199)). lia.
  - split; [lia|]. apply (proj2 (LoadingScreen_saturates 200)). lia.
Defined.

Lemma round_at (z : Z) (a : R) :
  IZR z <= a + 0.5 < IZR z + 1 -> Math.round a = IZR z.
Proof.
  intros H. unfold Math.round. f_equal. symmetry.
  apply Int_part_spec. lra.
Qed.

(** The percentage printed under the bar after [n] frames is [n / 2] rounded
    up, capped at 100: a whole number that goes 0, 1, 1, 2, 2, ... *)
Theorem LoadingScreen_label_value :
  forall n : nat,
    LoadingScreen_label (LoadingScreen_progress n)
    = IZR (Z.min ((Z.of_nat n + 1) / 2) 100).
Proof.
  intros n. unfold LoadingScreen_label.
  rewrite LoadingScreen_progress_closed, INR_IZR_INZ.
  set (k := Z.of_nat n). set (z := ((k + 1) / 2)%Z).
  assert (Hk : (0 <= k)%Z) by (unfold k; lia).
  assert (Hz : (2 * z <= k + 1 < 2 * z + 2)%Z).
  { pose proof (Z.div_mod (k + 1) 2 ltac:(lia)) as D.
    pose proof (Z.mod_pos_bound (k + 1) 2 ltac:(lia)) as B.
    fold z in D. lia. }
  clearbody z k.
  assert (Hz1 : 2 * IZR z <= IZR k + 1).
  { rewrite <- mult_IZR, <- plus_IZR. apply IZR_le. lia. }
  assert (Hz2 : IZR k + 1 < 2 * IZR z + 2).
  { rewrite <- mult_IZR, <- !plus_IZR. apply IZR_lt. lia. }
  destruct (Z.le_gt_cases 200 k) as [Hbig|Hsmall].
  - assert (Hz100 : (100 <= z)%Z) by lia.
    rewrite Z.min_r by exact Hz100.
    apply IZR_le in Hbig. rewrite Rmin_right by lra.
    apply round_at. lra.
  - assert (Hz100 : (z <= 100)%Z) by lia.
    rewrite Z.min_l by exact Hz100.
    apply IZR_lt in Hsmall. rewrite Rmin_left by lra.
    apply round_at. lra.
Qed.

(** ** Which event writes which part of the scene *)

(** In any scene, mounted or not, a frame keeps the rotation, speed and hp of
    the player, and a joystick event keeps the player's position, the camera,
    the ground plane and the skybox: only frames move things, only the
    joystick steers. *)
Theorem events_write_disjoint_parts :
  forall s : Scene,
    (rotation (playerState (App_step s Frame)) = rotation (playerState s)
     /\ speed (playerState (App_step s Frame)) = speed (playerState s)
     /\ hp (playerState (App_step s Frame)) = hp (playerState s))
    /\ (groupRef s = None -> playerState (App_step s Frame) = playerState s)
    /\ (forall e : AppEvent,
           e <> Frame ->
           position (playerState (App_step s e)) = position (playerState s)
           /\ camera (App_step s e) = camera s
           /\ planeRef (App_step s e) = planeRef s
           /\ skyboxRef (App_step s e) = skyboxRef s).
Proof.
  intros s. split; [|split].
  - cbn [App_step]. rewrite App_useFrame_playerState.
    destruct (groupRef s); repeat split.
  - intros H. cbn [App_step]. rewrite App_useFrame_playerState, H. reflexivity.
  - intros e He. destruct e as [event| |]; [| |contradiction];
      cbn [App_step App_render playerState camera planeRef skyboxRef].
    + rewrite handleMove_position. repeat split.
    + repeat split.
Qed.

Lemma events_write_disjoint_parts_witness :
  (Stop <> Frame
   /\ camera (App_step App_mount Stop) = camera App_mount)
  /\ (groupRef (mkScene initialPlayerState (THREE.mkVector3 0 615 0) None None None)
      = None
      /\ playerState
           (App_step (mkScene initialPlayerState (THREE.mkVector3 0 615 0)
                              None None None) Frame)
         = initialPlayerState).
Proof.
  assert (N : Stop <> Frame) by discriminate.
  split.
  - split; [exact N|].
    apply (proj2 (proj2 (events_write_disjoint_parts App_mount)) Stop N).
  - split; [reflexivity|].
    apply (proj1 (proj2 (events_write_disjoint_parts
                           (mkScene initialPlayerState (THREE.mkVector3 0 615 0)
                                    None None None)))).
    reflexivity.
Defined.

Lemma setFromEuler_yaw_unit (r : R) :
  let q := THREE.setFromEuler 0 r 0 in
  THREE.qx q * THREE.qx q + THREE.qy q * THREE.qy q
  + THREE.qz q * THREE.qz q + THREE.qw q * THREE.qw q = 1.
Proof.
  unfold THREE.setFromEuler, Math.sin, Math.cos.
  cbn [THREE.qx THREE.qy THREE.qz THREE.qw].
  rewrite Rhalf0, sin_0, cos_0.
  pose proof (heading_unit (r / 2)) as H.
  ring_simplify. ring_simplify in H. lra.
Qed.

(** In every reachable scene the player's group node is mounted, sits at the
    position held in the React state and is turned about the vertical axis
    by the state's rotation, with a quaternion of unit length: the node and
    the state never drift apart. *)
Theorem group_tracks_playerState :
  forall events : list AppEvent,
    let st := playerState (App_run events) in
    exists g : THREE.Object3D,
      groupRef (App_run events) = Some g
      /\ THREE.position g = THREE.ofTuple (position st)
      /\ THREE.quaternion g = THREE.setFromEuler 0 (rotation st) 0
      /\ THREE.applyQuaternion THREE.zAxis (THREE.quaternion g)
         = THREE.mkVector3 (sin (rotation st)) 0 (cos (rotation st))
      /\ THREE.qx (THREE.quaternion g) * THREE.qx (THREE.quaternion g)
         + THREE.qy (THREE.quaternion g) * THREE.qy (THREE.quaternion g)
         + THREE.qz (THREE.quaternion g) * THREE.qz (THREE.quaternion g)
         + THREE.qw (THREE.quaternion g) * THREE.qw (THREE.quaternion g) = 1.
Proof.
  intros events. cbv zeta.
  exists (Player_group (playerState (App_run events))).
  split; [apply App_run_groupRef|].
  split; [apply Player_group_position|].
  rewrite Player_group_quaternion.
  split; [reflexivity|]. split; [apply forward_axis|].
  apply setFromEuler_yaw_unit.
Qed.

(** ** The painted board *)

(** For any loop bound [size] and any canvas, the two loops paint exactly
    the square of side [size] clipped to the canvas, each texel with the
    colour of its parity, whatever was there before; texels outside keep
    their content and the canvas keeps its dimensions.  Painting twice gives
    the same bitmap as painting once. *)
Theorem paintBoard_paints_clipped_square :
  forall (size : nat) (c : Canvas) (px py : nat),
    width (paintBoard size c) = width c
    /\ height (paintBoard size c) = height c
    /\ texel (paintBoard size c) px py
       = (if (px <? Nat.min size (width c)) && (py <? Nat.min size (height c))
          then Some (if Nat.even (px + py) then lightColor else darkColor)
          else texel c px py)
    /\ texel (paintBoard size (paintBoard size c)) px py
       = texel (paintBoard size c) px py.
Proof.
  intros size c px py.
  change (paintBoard size) with (paintRows size size).
  destruct (paintRows_size size size c) as [Hw Hh].
  assert (T : forall c' qx qy,
             texel (paintRows size size c') qx qy
             = (if (qx <? Nat.min size (width c')) && (qy <? Nat.min size (height c'))
                then Some (if Nat.even (qx + qy) then lightColor else darkColor)
                else texel c' qx qy)).
  { intros c' qx qy. rewrite paintRows_texel. unfold checker.
    rewrite mod2_even.
    destruct (Nat.ltb_spec qx (Nat.min size (width c')));
      destruct (Nat.ltb_spec qy (Nat.min size (height c')));
      split_compare. }
  split; [exact Hw|]. split; [exact Hh|]. split; [apply T|].
  rewrite (T (paintRows size size c)), Hw, Hh, T.
  destruct ((px <? Nat.min size (width c)) && (py <? Nat.min size (height c)));
    reflexivity.
Qed.

Lemma even_mod_32 (n : nat) : Nat.even (n mod 32) = Nat.even n.
Proof.
  assert (H : Nat.even n = Nat.even (32 * (n / 32) + n mod 32))
    by (rewrite <- Nat.div_mod_eq; reflexivity).
  rewrite H, Nat.even_add, Nat.even_mul.
  change (Nat.even 32) with true. cbn [orb].
  destruct (Nat.even (n mod 32)); reflexivity.
Qed.

Lemma checker_even (x y : nat) :
  checker x y = if Bool.eqb (Nat.even x) (Nat.even y) then lightColor else darkColor.
Proof.
  unfold checker. rewrite mod2_even, Nat.even_add. reflexivity.
Qed.

Lemma count_in_row_ext (c c' : Canvas) (col : string) (cols y : nat) :
  (forall x : nat, (x < cols)%nat -> texel c x y = texel c' x y) ->
  count_in_row c col cols y = count_in_row c' col cols y.
Proof.
  intros H. unfold count_in_row. f_equal. apply filter_ext_in.
  intros x Hx. apply in_seq in Hx. rewrite H by lia. reflexivity.
Qed.

Lemma count_texels_ext (c c' : Canvas) (col : string) (cols rows : nat) :
  (forall x y : nat, (x < cols)%nat -> (y < rows)%nat -> texel c x y = texel c' x y) ->
  count_texels c col cols rows = count_texels c' col cols rows.
Proof.
  intros H. unfold count_texels.
  assert (G : forall l : list nat,
             (forall y, In y l -> (y < rows)%nat) ->
             fold_right (fun y acc => (count_in_row c col cols y + acc)%nat) O l
             = fold_right (fun y acc => (count_in_row c' col cols y + acc)%nat) O l).
  { induction l as [|y l IH]; intros Hl; [reflexivity|].
    cbn [fold_right]. rewrite IH by (intros; apply Hl; right; assumption).
    f_equal. apply count_in_row_ext. intros x Hx. apply H; [exact Hx|].
    apply Hl. left. reflexivity. }
  apply G. intros y Hy. apply in_seq in Hy. lia.
Qed.

(** The texture is a true checkerboard: a texel differs from the one below it
    and equals its diagonal neighbour, in both cases also across the seam of
    the repeated pattern; the pattern is symmetric under exchanging [x] and
    [y]; and the 1024 texels are 512 light and 512 dark. *)
Theorem createChessboardTexture_pattern :
  let raster := image (createChessboardTexture tt) in
  (forall x y : nat, (x < 32)%nat -> (y < 32)%nat ->
      texel raster x y <> texel raster x ((y + 1) mod 32)
      /\ texel raster ((x + 1) mod 32) ((y + 1) mod 32) = texel raster x y
      /\ texel raster y x = texel raster x y)
  /\ count_texels raster lightColor 32 32 = 512%nat
  /\ count_texels raster darkColor 32 32 = 512%nat.
Proof.
  intros raster. subst raster. split.
  - intros x y Hx Hy.
    assert (Hx1 : ((x + 1) mod 32 < 32)%nat) by (apply Nat.mod_upper_bound; lia).
    assert (Hy1 : ((y + 1) mod 32 < 32)%nat) by (apply Nat.mod_upper_bound; lia).
    rewrite !createChessboardTexture_texel.
    apply Nat.ltb_lt in Hx, Hy, Hx1, Hy1. rewrite Hx, Hy, Hx1, Hy1. cbn [andb].
    rewrite !checker_even, !even_mod_32, !Nat.add_1_r, !Nat.even_succ,
      <- !Nat.negb_even.
    destruct (Nat.even x), (Nat.even y); cbn; repeat split; discriminate.
  - set (c' := mkCanvas 32 32 "" (fun x y => Some (checker x y))).
    assert (E : forall x y : nat, (x < 32)%nat -> (y < 32)%nat ->
                texel (image (createChessboardTexture tt)) x y = texel c' x y).
    { intros x y Hx Hy. rewrite createChessboardTexture_texel.
      apply Nat.ltb_lt in Hx, Hy. rewrite Hx, Hy. reflexivity. }
    rewrite !(count_texels_ext _ c' _ 32 32 E).
    split; vm_compute; reflexivity.
Qed.

Lemma createChessboardTexture_pattern_witness :
  texel (image (createChessboardTexture tt)) 5 31
  <> texel (image (createChessboardTexture tt)) 5 0
  /\ texel (image (createChessboardTexture tt)) 9 5
     = texel (image (createChessboardTexture tt)) 5 9.
Proof.
  pose proof createChessboardTexture_pattern as T. cbv zeta in T.
  destruct T as [T _].
  assert (Hx : (5 < 32)%nat) by lia. assert (Hy : (31 < 32)%nat) by lia.
  assert (Hz : (9 < 32)%nat) by lia.
  split.
  - exact (proj1 (T 5 31 Hx Hy))%nat.
  - exact (proj2 (proj2 (T 5 9 Hx Hz)))%nat.
Defined.

(** ** How far the player can get *)

Lemma step_bound (s t : R) : 0 <= s <= 55 -> -1 <= t <= 1 -> -55 <= s * t <= 55.
Proof. intros Hs Ht. split; nra. Qed.

(** After a run with [k] rendered frames each horizontal coordinate of the
    player is within [55 * k] of the start at 0: the player cannot leave the
    ground plane of half-width 10000 in fewer than 182 frames. *)
Theorem player_reach_bounded :
  forall events : list AppEvent,
    let p := position (playerState (App_run events)) in
    - (55 * INR (frames_in events)) <= at0 p <= 55 * INR (frames_in events)
    /\ - (55 * INR (frames_in events)) <= at2 p <= 55 * INR (frames_in events).
Proof.
  intros events. cbv zeta.
  induction events as [|e events IH] using rev_ind.
  - cbn. lra.
  - rewrite frames_in_snoc. destruct e as [event| |].
    + rewrite App_run_snoc, Nat.add_0_r.
      cbn [App_step App_render playerState]. rewrite handleMove_position.
      exact IH.
    + rewrite App_run_snoc, Nat.add_0_r. exact IH.
    + rewrite App_run_Frame, Nat.add_1_r, S_INR.
      destruct (App_run_bounds events) as (_ & Hs & _).
      destruct (playerState (App_run events)) as [[[px py] pz] r s h].
      cbn [position speed at0 at2] in *. rewrite Player_frame_eq.
      cbn [position at0 at2].
      pose proof (step_bound s (sin r) Hs (SIN_bound r)) as Bx.
      pose proof (step_bound s (cos r) Hs (COS_bound r)) as Bz.
      lra.
Qed.
